(** * Oasys: child-process lifecycle ([sys::run], [sys::kill], [sys::quit],
    [sys::wait])

    A shallow embedding of namespace [sys] of the process source file, for
    both of its conditionally compiled backends: the POSIX one
    (fork/exec/signals) and the Win32 one (handles).  Operating system calls
    are modelled by a [world] per backend: descriptor or handle tables, the
    replies the kernel will give, the system calls issued so far and the
    diagnostics written by [sys::err] / [sys::warn]. *)

From Stdlib Require Import ZArith Lia List String Ascii.
From stdpp Require Import base gmap strings list.

Local Open Scope Z_scope.

(** ** Machine integers *)

Module Int.

(** [int] and [pid_t]: 32 bits, two's complement. *)
Definition to_int (z : Z) : Z := (z + 2 ^ 31) mod 2 ^ 32 - 2 ^ 31.

(** [DWORD]: 32 bits, unsigned. *)
Definition to_dword (z : Z) : Z := z mod 2 ^ 32.

(** [size_t]: 64 bits, unsigned. *)
Definition to_size_t (z : Z) : Z := z mod 2 ^ 64.

(** [signed char]: 8 bits, two's complement. *)
Definition to_schar (z : Z) : Z := (z + 2 ^ 7) mod 2 ^ 8 - 2 ^ 7.

End Int.

(** Modelled from the spec: [sys::invalid] and [sys::fail] live in sys.hpp,
    which is not part of the sources at hand.  The sentinel is the integer -1
    and [fail] compares with it. *)
Definition invalid : Z := -1.

Definition fail (value : Z) : bool := value =? invalid.

Definition EXIT_FAILURE : Z := 1.

(** ** Diagnostics *)

(** Modelled from the spec: [sys::err], [sys::warn] and [sys::win::err]
    (err.hpp, not part of the sources at hand) report a failure and hand
    control back; here each call appends one record to a log. *)
Inductive arg : Type :=
| AInt (z : Z)
| AStr (s : string).

Inductive level : Type := Err | Warn | WinErr.

Record diag : Type := Diag { lvl : level; items : list arg }.

(** ** Outcomes of a call and the monad of system code *)

(** A C++ function either returns to its caller, or ends the process with
    [exit], or never comes back because [exec] replaced the program.
    [Pending] marks a loop that was still running when the fuel ran out,
    [Undefined] a write outside the object written to, or a library call
    with an argument it is not defined for. *)
Inductive outcome (A : Type) : Type :=
| Returned (a : A)
| Exited (code : Z)
| Replaced (path : string) (args : list string)
| Pending
| Undefined.

Arguments Returned {A} a.
Arguments Exited {A} code.
Arguments Replaced {A} path args.
Arguments Pending {A}.
Arguments Undefined {A}.

Section Monad.
Context {W : Type}.

Definition M (A : Type) : Type := W -> outcome A * W.

Definition ret {A} (a : A) : M A := fun w => (Returned a, w).

Definition bind {A B} (c : M A) (k : A -> M B) : M B :=
  fun w =>
    match c w with
    | (Returned a, w') => k a w'
    | (Exited code, w') => (Exited code, w')
    | (Replaced p a, w') => (Replaced p a, w')
    | (Pending, w') => (Pending, w')
    | (Undefined, w') => (Undefined, w')
    end.

Definition exit {A} (code : Z) : M A := fun w => (Exited code, w).

Definition pending {A} : M A := fun w => (Pending, w).

Definition undefined {A} : M A := fun w => (Undefined, w).

Definition gets {A} (f : W -> A) : M A := fun w => (Returned (f w), w).

Definition modify (f : W -> W) : M unit := fun w => (Returned tt, f w).

(** [for (x : xs) body], threading the locals [s] the body updates. *)
Fixpoint for_each {X S} (xs : list X) (body : X -> S -> M S) (s : S) : M S :=
  match xs with
  | [] => ret s
  | x :: xs' => bind (body x s) (for_each xs' body)
  end.

(** A loop whose body may [return v] from the enclosing function. *)
Fixpoint for_return {X R} (xs : list X) (body : X -> M (option R)) : M (option R) :=
  match xs with
  | [] => ret None
  | x :: xs' =>
    bind (body x) (fun r =>
      match r with
      | Some v => ret (Some v)
      | None => for_return xs' body
      end)
  end.

End Monad.

Arguments M : clear implicits.

(** The entries a call added to a log. *)
Definition since {A} (before after : list A) : list A :=
  drop (length before) after.

Declare Scope sys_scope.
Delimit Scope sys_scope with sys.
Notation "x <~ c ;; k" := (bind c (fun x => k))
  (at level 100, c at next level, right associativity) : sys_scope.
Notation "c ;;; k" := (bind c (fun _ => k))
  (at level 100, right associativity) : sys_scope.
Local Open Scope sys_scope.

(** ** <sys/wait.h> *)

(** The status word macros of the C library.  They are platform code, so the
    decoding in [sys::wait] is stated over any implementation of them. *)
Record wait_macros : Type := WaitMacros {
  WIFEXITED : Z -> bool;
  WEXITSTATUS : Z -> Z;
  WIFSTOPPED : Z -> bool;
  WSTOPSIG : Z -> Z;
  WIFSIGNALED : Z -> bool;
  WTERMSIG : Z -> Z
}.

(** The encoding of Linux (glibc, bits/waitstatus.h). *)
Module Linux.

Definition WTERMSIG (status : Z) : Z := Z.land status 0x7f.

Definition WEXITSTATUS (status : Z) : Z := Z.shiftr (Z.land status 0xff00) 8.

Definition WSTOPSIG (status : Z) : Z := WEXITSTATUS status.

Definition WIFEXITED (status : Z) : bool := WTERMSIG status =? 0.

Definition WIFSIGNALED (status : Z) : bool :=
  Z.shiftr (Int.to_schar (Z.land status 0x7f + 1)) 1 >? 0.

Definition WIFSTOPPED (status : Z) : bool := Z.land status 0xff =? 0x7f.

Definition macros : wait_macros :=
  WaitMacros WIFEXITED WEXITSTATUS WIFSTOPPED WSTOPSIG WIFSIGNALED WTERMSIG.

(** How the kernel packs a status word. *)
Definition W_EXITCODE (code sig : Z) : Z := Z.lor (Z.shiftl code 8) sig.

Definition W_STOPCODE (sig : Z) : Z := Z.lor (Z.shiftl sig 8) 0x7f.

Definition WCOREFLAG : Z := 0x80.

Definition EINTR : Z := 4.
Definition ECHILD : Z := 10.
Definition ESRCH : Z := 3.

End Linux.

(** <signal.h> *)
Definition SIGINT : Z := 2.
Definition SIGTERM : Z := 15.


(** ** The POSIX backend ([#else] branches) *)

Module Posix.

(** What an open descriptor refers to. *)
Inductive file : Type :=
| Inherited (n : Z)
| PipeRead (id : nat)
| PipeWrite (id : nat).

Inductive syscall : Type :=
| SysPipe (rd wr : Z)
| SysClose (fd : Z)
| SysDup2 (oldfd newfd : Z)
| SysFork
| SysExecvp (path : string) (args : list string)
| SysKill (pid sig : Z)
| SysWaitpid (pid options : Z).

(** What one call of [waitpid] comes back with. *)
Inductive wait_reply : Type :=
| Reaped (pid status : Z)
| Failed (errno : Z).

(** The calling process and the kernel around it.
    - [fdt]: the descriptor table, [nofile] its size limit;
    - [fork_reply]: what [fork] returns in this process (0 in the child,
      the child's identifier or -1 in the parent);
    - [programs]: the names [execvp] can resolve;
    - [targets]: the processes [kill] can deliver a signal to;
    - [wait_replies n]: the reply to the n-th call of [waitpid]. *)
Record world : Type := World {
  fdt : gmap Z file;
  nofile : nat;
  npipes : nat;
  fork_reply : Z;
  programs : list string;
  targets : list Z;
  wait_replies : nat -> wait_reply;
  nwaits : nat;
  trace : list syscall;
  errlog : list diag
}.

Definition with_fdt (f : gmap Z file -> gmap Z file) (w : world) : world :=
  World (f (fdt w)) (nofile w) (npipes w) (fork_reply w) (programs w)
        (targets w) (wait_replies w) (nwaits w) (trace w) (errlog w).

Definition with_npipes (n : nat) (w : world) : world :=
  World (fdt w) (nofile w) n (fork_reply w) (programs w)
        (targets w) (wait_replies w) (nwaits w) (trace w) (errlog w).

Definition with_nwaits (n : nat) (w : world) : world :=
  World (fdt w) (nofile w) (npipes w) (fork_reply w) (programs w)
        (targets w) (wait_replies w) n (trace w) (errlog w).

Definition with_trace (t : list syscall) (w : world) : world :=
  World (fdt w) (nofile w) (npipes w) (fork_reply w) (programs w)
        (targets w) (wait_replies w) (nwaits w) t (errlog w).

Definition with_errlog (l : list diag) (w : world) : world :=
  World (fdt w) (nofile w) (npipes w) (fork_reply w) (programs w)
        (targets w) (wait_replies w) (nwaits w) (trace w) l.

Definition emit (c : syscall) : M world unit :=
  modify (fun w => with_trace (trace w ++ [c]) w).

Definition err (what : list arg) : M world unit :=
  modify (fun w => with_errlog (errlog w ++ [Diag Err what]) w).

(** *** System calls *)

Definition is_free (t : gmap Z file) (fd : Z) : bool :=
  match t !! fd with
  | None => true
  | Some _ => false
  end.

(** The lowest unused descriptor below the limit. *)
Definition lowest_free (t : gmap Z file) (limit : nat) : option Z :=
  find (is_free t) (map Z.of_nat (seq 0 limit)).

(** [pipe(fds)]: both descriptors or none (EMFILE). *)
Definition sys_pipe : M world (Z * (Z * Z)) :=
  w <~ gets (fun w => w) ;;
  match lowest_free (fdt w) (nofile w) with
  | None => emit (SysPipe invalid invalid) ;;; ret (-1, (invalid, invalid))
  | Some r =>
    let t := <[r := PipeRead (npipes w)]> (fdt w) in
    match lowest_free t (nofile w) with
    | None => emit (SysPipe invalid invalid) ;;; ret (-1, (invalid, invalid))
    | Some wr =>
      emit (SysPipe r wr) ;;;
      modify (fun w => with_npipes (S (npipes w))
                (with_fdt (fun _ => <[wr := PipeWrite (npipes w)]> t) w)) ;;;
      ret (0, (r, wr))
    end
  end.

(** [close(fd)]: -1 (EBADF) unless [fd] is open. *)
Definition sys_close (fd : Z) : M world Z :=
  emit (SysClose fd) ;;;
  t <~ gets fdt ;;
  if is_free t fd then ret (-1)
  else modify (with_fdt (delete fd)) ;;; ret 0.

(** [dup2(oldfd, newfd)]: [newfd] now names what [oldfd] names. *)
Definition sys_dup2 (oldfd newfd : Z) : M world Z :=
  emit (SysDup2 oldfd newfd) ;;;
  t <~ gets fdt ;;
  match t !! oldfd with
  | None => ret (-1)
  | Some f => modify (with_fdt (insert newfd f)) ;;; ret newfd
  end.

Definition sys_fork : M world Z :=
  emit SysFork ;;; gets fork_reply.

(** [execvp(file, argv)] comes back only when it fails. *)
Definition sys_execvp (path : string) (args : list string) : M world Z :=
  emit (SysExecvp path args) ;;;
  ps <~ gets programs ;;
  if bool_decide (path ∈ ps) then (fun w => (Replaced path args, w))
  else ret (-1).

(** [kill(pid, sig)]: -1 (ESRCH) unless the process can be signalled. *)
Definition sys_kill (pid sig : Z) : M world Z :=
  emit (SysKill pid sig) ;;;
  ts <~ gets targets ;;
  if bool_decide (pid ∈ ts) then ret 0 else ret (-1).

(** [waitpid(pid, &status, options)]: the identifier returned and the
    contents of [status] afterwards (untouched on failure). *)
Definition sys_waitpid (pid status options : Z) : M world (Z * Z) :=
  emit (SysWaitpid pid options) ;;;
  w <~ gets (fun w => w) ;;
  modify (with_nwaits (S (nwaits w))) ;;;
  match wait_replies w (nwaits w) with
  | Reaped p s => ret (p, s)
  | Failed _ => ret (-1, status)
  end.

(** *** [sys::file::pipe] *)

(** Modelled from the spec: class [sys::file::pipe] (file.hpp, not part of
    the sources at hand) is a pair of owning descriptors, read end at index
    0 and write end at index 1.  Its constructor calls [pipe] and leaves
    both ends [invalid] when that fails; [get] reads an end, [set] stores a
    new value (by default [invalid]) and gives back the old one, so the
    caller takes the descriptor over; the destructor closes the ends the
    object still owns. *)
Definition pipe : Type := (Z * Z)%type.

Definition pipe_ctor : M world pipe :=
  r <~ sys_pipe ;;
  if fail (fst r) then err [AStr "pipe"] ;;; ret (invalid, invalid)
  else ret (snd r).

Definition pipe_fail (p : pipe) : bool := fail (fst p) || fail (snd p).

Definition get (p : pipe) (j : bool) : Z := if j then snd p else fst p.

Definition set (p : pipe) (j : bool) : Z * pipe :=
  (get p j, if j then (fst p, invalid) else (invalid, snd p)).

Definition descriptor_dtor (fd : Z) : M world unit :=
  if fail fd then ret tt
  else r <~ sys_close fd ;;
       if fail r then err [AStr "close"; AInt fd] else ret tt.

Definition pipe_dtor (p : pipe) : M world unit :=
  descriptor_dtor (snd p) ;;; descriptor_dtor (fst p).

(** [pair[i]] of the local array [sys::file::pipe pair[3]]. *)
Definition nth_pipe (pair : list pipe) (i : nat) : pipe :=
  match pair !! i with
  | Some p => p
  | None => (invalid, invalid)
  end.

(** The array is built front to back and destroyed back to front. *)
Definition pair_ctor : M world (list pipe) :=
  p0 <~ pipe_ctor ;;
  p1 <~ pipe_ctor ;;
  p2 <~ pipe_ctor ;;
  ret [p0; p1; p2].

Fixpoint pair_dtor (pair : list pipe) : M world unit :=
  match pair with
  | [] => ret tt
  | p :: rest => pair_dtor rest ;;; pipe_dtor p
  end.

(** *** [sys::run] *)

(** The locals of [run] that its loops update: the array [pair] and the
    caller's array [fd]. *)
Record locals : Type := Locals { pair : list pipe; fd : list Z }.

(** Parent, after a successful fork: [fd[i] = pair[i][0 == i].set()]. *)
Definition keep_end (i : nat) (l : locals) : M world locals :=
  let r := set (nth_pipe (pair l) i) (Nat.eqb 0 i) in
  ret (Locals (<[i := snd r]> (pair l)) (<[i := fst r]> (fd l))).

(** Child, the inner loop [for (int j : { 0, 1 })]. *)
Definition close_end (i : nat) (j : bool) (l : locals) : M world locals :=
  let r := set (nth_pipe (pair l) i) j in
  let k := fst r in
  let l := Locals (<[i := snd r]> (pair l)) (fd l) in
  c <~ sys_close k ;;
  if fail c then exit EXIT_FAILURE else ret l.

(** Child, the outer loop [for (int i : { 0, 1, 2 })]. *)
Definition rewire (i : nat) (l : locals) : M world locals :=
  let k := get (nth_pipe (pair l) i) (negb (Nat.eqb 0 i)) in
  c <~ sys_close (Z.of_nat i) ;;
  d <~ (if fail c then ret c else sys_dup2 k (Z.of_nat i)) ;;
  if fail c || fail d then exit EXIT_FAILURE
  else for_each [false; true] (close_end i) l.

(** The child, from the loop after [if (pid) { ... }] to the end of [run].
    [args] is [argv] followed by the null pointer that ends it, so for an
    empty [argv] [args.front()] is that null pointer: [execvp] is called
    with no file name, which it is not defined for. *)
Definition child_side (l : locals) (argv : list string) : M world (Z * locals) :=
  l <~ for_each [0; 1; 2]%nat rewire l ;;
  let args := argv in
  match args with
  | [] => undefined
  | front :: _ =>
    res <~ sys_execvp front args ;;
    err [AStr "execvp"; AStr front] ;;;
    exit res
  end.

(** The body of [run], between the construction of [pair] and its
    destruction on return. *)
Definition run_body (l : locals) (argv : list string) : M world (Z * locals) :=
  if existsb pipe_fail (pair l) then ret (invalid, l)
  else
    pid <~ sys_fork ;;
    if negb (pid =? 0) then
      if fail pid then err [AStr "fork"] ;;; ret (pid, l)
      else l <~ for_each [0; 1; 2]%nat keep_end l ;; ret (pid, l)
    else child_side l argv.

(** [pid_t run(int fd[3], char const** argv)]: the identifier returned and
    the caller's array afterwards. *)
Definition run (fd : list Z) (argv : list string) : M world (Z * list Z) :=
  pair <~ pair_ctor ;;
  r <~ run_body (Locals pair fd) argv ;;
  pair_dtor (Posix.pair (snd r)) ;;;
  ret (fst r, Posix.fd (snd r)).

(** *** [sys::kill], [sys::quit] *)

Definition kill (pid : Z) : M world unit :=
  r <~ sys_kill pid SIGTERM ;;
  if fail r then err [AStr "SIGTERM"; AInt pid] else ret tt.

Definition quit (pid : Z) : M world unit :=
  r <~ sys_kill pid SIGINT ;;
  if fail r then err [AStr "SIGINT"; AInt pid] else ret tt.

(** *** [sys::wait] *)

(** The [do ... while (pid != parent)] loop; it yields the status word. *)
Fixpoint wait_loop (fuel : nat) (parent status : Z) : M world Z :=
  match fuel with
  | O => pending
  | S fuel' =>
    r <~ sys_waitpid parent status 0 ;;
    let pid := fst r in
    let status := snd r in
    (if fail pid then err [AStr "waitpid"; AInt parent] else ret tt) ;;;
    if negb (pid =? parent) then wait_loop fuel' parent status
    else ret status
  end.

(** The cascade after the loop. *)
Definition decode (m : wait_macros) (status : Z) : Z :=
  if WIFEXITED m status then WEXITSTATUS m status
  else if WIFSTOPPED m status then WSTOPSIG m status
  else if WIFSIGNALED m status then WTERMSIG m status
  else status.

Definition wait (m : wait_macros) (fuel : nat) (pid : Z) : M world Z :=
  status <~ wait_loop fuel pid (-1) ;;
  ret (decode m status).

(** *** Vocabulary of the statements *)

(** The identifier a reply makes [waitpid] return. *)
Definition reply_pid (r : wait_reply) : Z :=
  match r with
  | Reaped p _ => p
  | Failed _ => -1
  end.

(** From [w] on, the first [k] replies of [waitpid] do not name [parent]
    and the next one reports it with status word [st]. *)
Definition reaps (w : world) (parent : Z) (k : nat) (st : Z) : Prop :=
  (forall i : nat, (i < k)%nat ->
     reply_pid (wait_replies w (nwaits w + i)%nat) <> parent) /\
  wait_replies w (nwaits w + k)%nat = Reaped parent st.

(** What a process runs on its way out.  [exit] and [std::exit] call the
    functions registered with [atexit], last registered first, before the
    process ends, and [fork] hands the registrations of the parent to the
    child; nothing of them runs in a program that [exec] replaced or that
    is still running. *)
Definition at_exit {A} (registered : list string) (o : outcome A)
    : list string :=
  match o with
  | Exited _ => rev registered
  | _ => []
  end.

(** The descriptors 0, 1 and 2 are open. *)
Definition std_open (w : world) : Prop :=
  is_free (fdt w) 0 = false /\ is_free (fdt w) 1 = false /\
  is_free (fdt w) 2 = false.

(** A process with the three standard descriptors, room for [limit]
    descriptors, and a kernel whose [fork] returns [forked] and whose
    [waitpid] gives [replies]. *)
Definition booted (limit : nat) (forked : Z) (progs : list string)
    (live : list Z) (replies : nat -> wait_reply) : world :=
  World (list_to_map [(0, Inherited 0); (1, Inherited 1); (2, Inherited 2)])
        limit 0 forked progs live replies 0 [] [].

(** The kernel reports child [pid] with status word [st] at once. *)
Definition reaping (pid st : Z) : world :=
  booted 16 pid [] [pid] (fun _ => Reaped pid st).

(** The kernel first fails with [errno], then reports child [pid]. *)
Definition failing_once (errno pid st : Z) : world :=
  booted 16 pid [] [pid]
    (fun n => match n with O => Failed errno | _ => Reaped pid st end).


End Posix.

(** ** The Win32 backend ([#ifdef _WIN32] branches) *)

Module Win32.

Definition MAX_PATH : Z := 260.
Definition INT_MAX : Z := 2 ^ 31 - 1.
Definition HANDLE_FLAG_INHERIT : Z := 1.
Definition DETACHED_PROCESS : Z := 8.
Definition INFINITE : Z := 0xFFFFFFFF.
Definition STILL_ACTIVE : Z := 259.
Definition O_RDONLY : Z := 0.
Definition O_WRONLY : Z := 1.

(** What a handle refers to. *)
Inductive object : Type :=
| PipeRead (id : nat)
| PipeWrite (id : nat)
| Process (pid : Z)
| Thread (pid : Z)
| Other (n : Z).

Record hinfo : Type := HInfo { obj : object; inheritable : bool }.

(** A process is running, and will end with exit code [fate] if nobody
    terminates it, or it has ended. *)
Inductive pstate : Type :=
| Running (fate : Z)
| Ended (code : Z).

(** The exit code a process has once it is over. *)
Definition final_code (s : pstate) : Z :=
  match s with
  | Running fate => fate
  | Ended code => code
  end.

(** A process started by [CreateProcess]: its command line, its three
    standard handles and the handles it inherited. *)
Record child : Type := Child {
  child_pid : Z;
  cmdline : string;
  std : list Z;
  inherited : list Z
}.

Inductive call : Type :=
| CreatePipe (ok : bool)
| SetHandleInformation (h mask flags : Z) (ok : bool)
| CreateProcess (cmd : string) (inherit : bool) (flags : Z) (ok : bool)
| CloseHandle (h : Z)
| OpenOsfhandle (h flags : Z)
| OpenProcess (pid h : Z)
| TerminateProcess (h code : Z) (ok : bool)
| WaitForSingleObject (h timeout : Z) (ok : bool)
| GetExitCodeProcess (h : Z) (ok : bool).

(** The calling process and the system around it.
    - [handles]: the handle table, [next] numbers the next handle handed
      out (handle values are the multiples of 4 from 4 on);
    - [pipe_budget]: how many more pipes [CreatePipe] will create;
    - [sticky h]: [SetHandleInformation] refuses handle [h];
    - [startable cmd]: [CreateProcess] can start command line [cmd], and
      [fate cmd] is the exit code that program ends with;
    - [procs]: the processes [OpenProcess] can open;
    - [wait_fails], [query_fails]: [WaitForSingleObject] and
      [GetExitCodeProcess] fail;
    - [crt]: the C runtime descriptors made by [_open_osfhandle], the
      first of them descriptor 3, each with its handle and flags. *)
Record world : Type := World {
  handles : gmap Z hinfo;
  next : positive;
  npipes : nat;
  pipe_budget : nat;
  sticky : Z -> bool;
  startable : string -> bool;
  fate : string -> Z;
  procs : gmap Z pstate;
  next_pid : Z;
  children : list child;
  wait_fails : bool;
  query_fails : bool;
  crt : list (Z * Z);
  trace : list call;
  errlog : list diag
}.

Definition with_handles (f : gmap Z hinfo -> gmap Z hinfo) (w : world) : world :=
  World (f (handles w)) (next w) (npipes w) (pipe_budget w) (sticky w)
        (startable w) (fate w) (procs w) (next_pid w) (children w)
        (wait_fails w) (query_fails w) (crt w) (trace w) (errlog w).

Definition with_next (n : positive) (w : world) : world :=
  World (handles w) n (npipes w) (pipe_budget w) (sticky w)
        (startable w) (fate w) (procs w) (next_pid w) (children w)
        (wait_fails w) (query_fails w) (crt w) (trace w) (errlog w).

Definition with_pipes (n budget : nat) (w : world) : world :=
  World (handles w) (next w) n budget (sticky w)
        (startable w) (fate w) (procs w) (next_pid w) (children w)
        (wait_fails w) (query_fails w) (crt w) (trace w) (errlog w).

Definition with_procs (f : gmap Z pstate -> gmap Z pstate) (w : world) : world :=
  World (handles w) (next w) (npipes w) (pipe_budget w) (sticky w)
        (startable w) (fate w) (f (procs w)) (next_pid w) (children w)
        (wait_fails w) (query_fails w) (crt w) (trace w) (errlog w).

Definition with_child (c : child) (w : world) : world :=
  World (handles w) (next w) (npipes w) (pipe_budget w) (sticky w)
        (startable w) (fate w) (procs w) (next_pid w + 4) (children w ++ [c])
        (wait_fails w) (query_fails w) (crt w) (trace w) (errlog w).

Definition with_crt (c : list (Z * Z)) (w : world) : world :=
  World (handles w) (next w) (npipes w) (pipe_budget w) (sticky w)
        (startable w) (fate w) (procs w) (next_pid w) (children w)
        (wait_fails w) (query_fails w) c (trace w) (errlog w).

Definition with_trace (t : list call) (w : world) : world :=
  World (handles w) (next w) (npipes w) (pipe_budget w) (sticky w)
        (startable w) (fate w) (procs w) (next_pid w) (children w)
        (wait_fails w) (query_fails w) (crt w) t (errlog w).

Definition with_errlog (l : list diag) (w : world) : world :=
  World (handles w) (next w) (npipes w) (pipe_budget w) (sticky w)
        (startable w) (fate w) (procs w) (next_pid w) (children w)
        (wait_fails w) (query_fails w) (crt w) (trace w) l.

Definition emit (c : call) : M world unit :=
  modify (fun w => with_trace (trace w ++ [c]) w).

Definition report (l : level) (what : list arg) : M world unit :=
  modify (fun w => with_errlog (errlog w ++ [Diag l what]) w).

Definition err : list arg -> M world unit := report WinErr.

Definition warn : list arg -> M world unit := report Warn.

(** [fail(HANDLE)]: null or [INVALID_HANDLE_VALUE]. *)
Definition fail_h (h : Z) : bool := (h =? 0) || (h =? -1).

(** *** System calls *)

Definition is_open (t : gmap Z hinfo) (h : Z) : bool :=
  match t !! h with
  | Some _ => true
  | None => false
  end.

Definition handle_value (n : positive) : Z := Z.pos n~0~0.

(** A new handle to [o]. *)
Definition new_handle (o : object) (inherit : bool) : M world Z :=
  n <~ gets next ;;
  let h := handle_value n in
  modify (fun w => with_next (Pos.succ n)
            (with_handles (insert h (HInfo o inherit)) w)) ;;;
  ret h.

(** [CreatePipe(&read, &write, &sa, 0)] with [sa.bInheritHandle = TRUE]. *)
Definition CreatePipe_ : M world (bool * (Z * Z)) :=
  w <~ gets (fun w => w) ;;
  match pipe_budget w with
  | O => emit (CreatePipe false) ;;; ret (false, (0, 0))
  | S budget =>
    emit (CreatePipe true) ;;;
    r <~ new_handle (PipeRead (npipes w)) true ;;
    wr <~ new_handle (PipeWrite (npipes w)) true ;;
    modify (with_pipes (S (npipes w)) budget) ;;;
    ret (true, (r, wr))
  end.

Definition set_inherit (flag : bool) (i : hinfo) : hinfo := HInfo (obj i) flag.

Definition SetHandleInformation_ (h mask flags : Z) : M world bool :=
  w <~ gets (fun w => w) ;;
  let ok := negb (sticky w h) && is_open (handles w) h in
  emit (SetHandleInformation h mask flags ok) ;;;
  (if ok && (Z.land mask HANDLE_FLAG_INHERIT =? HANDLE_FLAG_INHERIT)
   then modify (with_handles
                  (alter (set_inherit (negb (Z.land flags HANDLE_FLAG_INHERIT =? 0))) h))
   else ret tt) ;;;
  ret ok.

(** The handles a child created with [bInheritHandles] receives. *)
Definition inheritable_handles (t : gmap Z hinfo) : list Z :=
  map fst (List.filter (fun p => inheritable (snd p)) (map_to_list t)).

(** [CreateProcess(nullptr, cmd, nullptr, nullptr, inherit, flags, nullptr,
    nullptr, &si, &pi)]: success, then [pi.hProcess], [pi.hThread] and
    [pi.dwProcessId]. *)
Definition CreateProcess_ (cmd : string) (inherit : bool) (flags : Z)
    (si : list Z) : M world (bool * (Z * Z * Z)) :=
  w <~ gets (fun w => w) ;;
  if startable w cmd then
    emit (CreateProcess cmd inherit flags true) ;;;
    let pid := next_pid w in
    let got := if inherit then inheritable_handles (handles w) else [] in
    modify (with_child (Child pid cmd si got)) ;;;
    modify (with_procs (insert pid (Running (fate w cmd)))) ;;;
    hp <~ new_handle (Process pid) false ;;
    ht <~ new_handle (Thread pid) false ;;
    ret (true, (hp, ht, pid))
  else
    emit (CreateProcess cmd inherit flags false) ;;;
    ret (false, (0, 0, 0)).

Definition CloseHandle_ (h : Z) : M world bool :=
  emit (CloseHandle h) ;;;
  t <~ gets handles ;;
  modify (with_handles (delete h)) ;;;
  ret (is_open t h).

(** [_open_osfhandle(h, flags)]: the C runtime descriptor now owning [h]. *)
Definition open_osfhandle (h flags : Z) : M world Z :=
  emit (OpenOsfhandle h flags) ;;;
  c <~ gets crt ;;
  modify (with_crt (c ++ [(h, flags)])) ;;;
  ret (3 + Z.of_nat (length c)).

(** [OpenProcess(PROCESS_ALL_ACCESS, FALSE, pid)]: null unless the process
    exists. *)
Definition OpenProcess_ (pid : Z) : M world Z :=
  ps <~ gets procs ;;
  match ps !! pid with
  | None => emit (OpenProcess pid 0) ;;; ret 0
  | Some _ =>
    h <~ new_handle (Process pid) false ;;
    emit (OpenProcess pid h) ;;;
    ret h
  end.

Definition process_of (w : world) (h : Z) : option (Z * pstate) :=
  match handles w !! h with
  | Some (HInfo (Process pid) _) =>
    match procs w !! pid with
    | Some s => Some (pid, s)
    | None => None
    end
  | _ => None
  end.

(** [TerminateProcess(h, code)] ends a running process with [code]. *)
Definition TerminateProcess_ (h code : Z) : M world bool :=
  w <~ gets (fun w => w) ;;
  match process_of w h with
  | Some (pid, Running _) =>
    emit (TerminateProcess h code true) ;;;
    modify (with_procs (insert pid (Ended code))) ;;;
    ret true
  | _ => emit (TerminateProcess h code false) ;;; ret false
  end.

(** [WaitForSingleObject(h, INFINITE)] on a process handle comes back when
    the process has ended; [false] stands for [WAIT_FAILED]. *)
Definition WaitForSingleObject_ (h timeout : Z) : M world bool :=
  w <~ gets (fun w => w) ;;
  match process_of w h with
  | Some (pid, s) =>
    if wait_fails w then emit (WaitForSingleObject h timeout false) ;;; ret false
    else
      emit (WaitForSingleObject h timeout true) ;;;
      match s with
      | Running code => modify (with_procs (insert pid (Ended code))) ;;; ret true
      | Ended _ => ret true
      end
  | None => emit (WaitForSingleObject h timeout false) ;;; ret false
  end.

(** [GetExitCodeProcess(h, &code)]: success and the contents of [code]
    afterwards. *)
Definition GetExitCodeProcess_ (h code : Z) : M world (bool * Z) :=
  w <~ gets (fun w => w) ;;
  match process_of w h with
  | Some (pid, s) =>
    if query_fails w then emit (GetExitCodeProcess h false) ;;; ret (false, code)
    else
      emit (GetExitCodeProcess h true) ;;;
      match s with
      | Running _ => ret (true, STILL_ACTIVE)
      | Ended c => ret (true, Int.to_dword c)
      end
  | None => emit (GetExitCodeProcess h false) ;;; ret (false, code)
  end.

(** *** [sys::win::handle], [sys::win::pipe], [sys::win::process] *)

(** Modelled from the spec: the classes of win.hpp (not part of the sources
    at hand).  A [sys::win::handle] owns the handle in its member [h] and
    closes it on destruction unless it is null; [open(flags)] turns it into
    a C runtime descriptor, which owns it from then on.  A [sys::win::pipe]
    is a [read] and a [write] handle made by [CreatePipe], both null when
    that fails.  A [sys::win::process] is the handle [OpenProcess] gives for
    an identifier. *)
Record pipe : Type := Pipe { read : Z; write : Z }.

Definition handle_dtor (h : Z) : M world unit :=
  if fail_h h then ret tt else CloseHandle_ h ;;; ret tt.

Definition handle_open (h flags : Z) : M world (Z * Z) :=
  fd <~ open_osfhandle h flags ;;
  ret (fd, 0).

Definition pipe_ctor : M world pipe :=
  r <~ CreatePipe_ ;;
  if fst r then ret (Pipe (fst (snd r)) (snd (snd r)))
  else err [AStr "CreatePipe"] ;;; ret (Pipe 0 0).

Definition pipe_fail (p : pipe) : bool := fail_h (read p) || fail_h (write p).

Definition pipe_dtor (p : pipe) : M world unit :=
  handle_dtor (write p) ;;; handle_dtor (read p).

Definition process_ctor (pid : Z) : M world Z := OpenProcess_ pid.

Definition process_dtor (h : Z) : M world unit := handle_dtor h.

Definition nth_pipe (pair : list pipe) (n : nat) : pipe :=
  match pair !! n with
  | Some p => p
  | None => Pipe 0 0
  end.

Definition pair_ctor : M world (list pipe) :=
  p0 <~ pipe_ctor ;;
  p1 <~ pipe_ctor ;;
  p2 <~ pipe_ctor ;;
  ret [p0; p1; p2].

Fixpoint pair_dtor (pair : list pipe) : M world unit :=
  match pair with
  | [] => ret tt
  | p :: rest => pair_dtor rest ;;; pipe_dtor p
  end.

(** *** The command line buffer of [sys::run] *)

Definition NUL : ascii := "000"%char.

(** Store [bytes] at [buf + off]. *)
Definition store (buf : list ascii) (off : nat) (bytes : list ascii) : list ascii :=
  take off buf ++ bytes ++ drop (off + length bytes) buf.

(** [std::snprintf(buf + off, size, "%s ", s)]: at most [size - 1]
    characters of [s] and the space are stored, then a terminator; the
    result is the length the whole text has.  [None] when the bytes stored
    do not fit in [buf]. *)
Definition snprintf (buf : list ascii) (off size : Z) (s : string)
    : option (list ascii * Z) :=
  let text := list_ascii_of_string (s ++ " ") in
  let n := Z.of_nat (length text) in
  let res := if n <=? INT_MAX then n else -1 in
  if size =? 0 then Some (buf, res)
  else
    let k := Z.min n (size - 1) in
    if off + k + 1 <=? Z.of_nat (length buf)
    then Some (store buf (Z.to_nat off) (take (Z.to_nat k) text ++ [NUL]), res)
    else None.

Inductive formatted : Type :=
| Formatted (cmd : list ascii)
| FormatError
| Overrun.

(** [for (size_t i = 0, j = 0; argv[i]; ++i, ++j)], from index [i] on. *)
Fixpoint format_cmd (argv : list string) (j : Z) (cmd : list ascii) : formatted :=
  match argv with
  | [] => Formatted cmd
  | a :: rest =>
    match snprintf cmd j (Int.to_size_t (MAX_PATH - j)) a with
    | None => Overrun
    | Some (cmd, n) =>
      if 0 <? n then
        let j := Int.to_size_t (j + n) in
        format_cmd rest (Int.to_size_t (j + 1)) cmd
      else FormatError
    end
  end.

(** The text a [char*] parameter denotes: up to the first terminator. *)
Fixpoint c_str (buf : list ascii) : string :=
  match buf with
  | [] => ""
  | c :: rest => if Ascii.eqb c NUL then "" else String c (c_str rest)
  end.

(** *** [sys::run] *)

Record locals : Type := Locals { pair : list pipe; fd : list Z }.

(** The first loop [for (int n : { 0, 1, 2 })]; [Some v] is [return v]. *)
Definition mark (pair : list pipe) (n : nat) : M world (option Z) :=
  let p := nth_pipe pair n in
  if pipe_fail p then ret (Some (-1))
  else
    let h := if negb (Nat.eqb n 0) then read p else write p in
    ok <~ SetHandleInformation_ h HANDLE_FLAG_INHERIT 0 ;;
    if negb ok then err [AStr "SetHandleInformation"] ;;; ret (Some invalid)
    else ret None.

(** The last loop: [fd[n] = n ? pair[n].read.open(O_RDONLY)
    : pair[n].write.open(O_WRONLY)]. *)
Definition open_end (n : nat) (l : locals) : M world locals :=
  let p := nth_pipe (pair l) n in
  if negb (Nat.eqb n 0) then
    r <~ handle_open (read p) O_RDONLY ;;
    ret (Locals (<[n := Pipe (snd r) (write p)]> (pair l)) (<[n := fst r]> (fd l)))
  else
    r <~ handle_open (write p) O_WRONLY ;;
    ret (Locals (<[n := Pipe (read p) (snd r)]> (pair l)) (<[n := fst r]> (fd l))).

Definition run_body (l : locals) (argv : list string) : M world (Z * locals) :=
  r <~ for_return [0; 1; 2]%nat (mark (pair l)) ;;
  match r with
  | Some v => ret (v, l)
  | None =>
    match format_cmd argv 0 (repeat NUL (Z.to_nat MAX_PATH)) with
    | Overrun => undefined
    | FormatError => ret (-1, l)
    | Formatted cmd =>
      let si := [read (nth_pipe (pair l) 0); write (nth_pipe (pair l) 1);
                 write (nth_pipe (pair l) 2)] in
      c <~ CreateProcess_ (c_str cmd) true DETACHED_PROCESS si ;;
      let ok := fst c in
      let hThread := snd (fst (snd c)) in
      let dwProcessId := snd (snd c) in
      if negb ok then
        err [AStr "CreateProcess"; AStr (c_str cmd)] ;;; ret (invalid, l)
      else
        let closed := hThread in
        l <~ for_each [0; 1; 2]%nat open_end l ;;
        handle_dtor closed ;;;
        ret (Int.to_int dwProcessId, l)
    end
  end.

Definition run (fd : list Z) (argv : list string) : M world (Z * list Z) :=
  pair <~ pair_ctor ;;
  r <~ run_body (Locals pair fd) argv ;;
  pair_dtor (Win32.pair (snd r)) ;;;
  ret (fst r, Win32.fd (snd r)).

(** *** [sys::kill] *)

Definition kill (pid : Z) : M world unit :=
  h <~ process_ctor pid ;;
  (if fail_h h then warn [AInt pid]
   else
     ok <~ TerminateProcess_ h 0 ;;
     if negb ok then err [AStr "TerminateProcess"; AInt pid] else ret tt) ;;;
  process_dtor h.

(** *** [sys::quit] *)

Section Quit.

(** [sys::win::msg::quit] is declared outside the sources at hand; [quit]
    is stated over any implementation of it. *)
Variable msg_quit : Z -> M world bool.

Definition quit (pid : Z) : M world unit :=
  r <~ msg_quit pid ;;
  if r then warn [AInt pid] else ret tt.

End Quit.

(** *** [sys::wait] *)

Definition wait (pid : Z) : M world Z :=
  let code := Int.to_dword invalid in
  h <~ process_ctor pid ;;
  code <~ (if fail_h h then warn [AInt pid] ;;; ret code
           else
             ok <~ WaitForSingleObject_ h INFINITE ;;
             if negb ok then err [AStr "WaitForSingleObject"; AInt pid] ;;; ret code
             else
               r <~ GetExitCodeProcess_ h code ;;
               if negb (fst r)
               then err [AStr "GetExitCodeProcess"; AInt pid] ;;; ret (snd r)
               else ret (snd r)) ;;
  process_dtor h ;;;
  ret (Int.to_int code).

(** *** Vocabulary of the statements *)

(** A process with an empty handle table, room for three pipes, no handle
    refused by [SetHandleInformation], and the processes [running]. *)
Definition booted (can_start : string -> bool) (running : list (Z * pstate))
    : world :=
  World ∅ 1 0 3 (fun _ => false) can_start (fun _ => 0) (list_to_map running)
        100 [] false false [] [] [].

End Win32.


(** ** The command line of [sys::run] *)

Module CommandLine.
Import Win32.

(** The bytes one argument takes in the buffer: its text, a space and the
    terminator. *)
Definition slot (a : string) : list ascii :=
  list_ascii_of_string (a ++ " ") ++ [NUL].

(** The slots of an argument vector, one after the other. *)
Definition laid_out (argv : list string) : list ascii :=
  concat (map slot argv).

(** The buffer [char cmd[MAX_PATH]] after [ZeroMemory]. *)
Definition zeroed : list ascii := repeat NUL (Z.to_nat MAX_PATH).

(** An argument is a C string: no terminator inside. *)
Definition c_string (a : string) : Prop :=
  Forall (fun c => c <> NUL) (list_ascii_of_string a).

(** An argument [snprintf] can report the length of. *)
Definition countable (a : string) : Prop :=
  Z.of_nat (String.length a) + 1 <= INT_MAX.

End CommandLine.

(** ** The replies [sys::wait] meets *)

Module PosixReplies.
Import Posix.

(** Among the [k] replies of [waitpid] from the one numbered [from] on, how
    many make it return the failure value. *)
Fixpoint failures (replies : nat -> wait_reply) (from k : nat) : nat :=
  match k with
  | O => 0
  | S k' =>
    ((if fail (reply_pid (replies from)) then 1 else 0) +
     failures replies (S from) k')%nat
  end.

(** The kernel never reports the child: every [waitpid] fails with [errno]. *)
Definition childless (errno : Z) : world :=
  booted 16 7 [] [] (fun _ => Failed errno).

End PosixReplies.

(** ** [sys::win::msg::get]

    The top-level windows are a list in Z order, which stays as it is while
    [get] runs. *)

Module Msg.

(** A top-level window: its handle, the process that owns it and the thread
    that created it. *)
Record window : Type := Window { hwnd : Z; owner : Z; thread : Z }.

(** The handle of the window at the front of a list, [nullptr] for none. *)
Definition front (ws : list window) : Z :=
  match ws with
  | [] => 0
  | w :: _ => hwnd w
  end.

(** The window that follows the one with handle [after]. *)
Fixpoint next_after (ws : list window) (after : Z) : Z :=
  match ws with
  | [] => 0
  | w :: rest => if hwnd w =? after then front rest else next_after rest after
  end.

(** [FindWindowEx(nullptr, after, nullptr, nullptr)] over the top-level
    windows [ws] in Z order: the first window when [after] is [nullptr], the
    one behind [after] otherwise, [nullptr] at the end.  The source spells
    the call [FindWindwoEx]. *)
Definition FindWindowEx_ (ws : list window) (after : Z) : Z :=
  if after =? 0 then front ws else next_after ws after.

(** [GetWindowThreadProcessId(h, &dw)]: the thread and, in [dw], the
    process of window [h]; nothing for a handle that names no window.  The
    source spells the call [GetWindowProcessThreadId]. *)
Definition GetWindowThreadProcessId_ (ws : list window) (h : Z)
    : option (Z * Z) :=
  match find (fun w => hwnd w =? h) ws with
  | Some w => Some (thread w, owner w)
  | None => None
  end.

(** The loop of [get], entered with the last handle found and the current
    contents of [tid]: the handle returned and [tid] afterwards.  [dw] is
    read uninitialised when the call that should fill it fails. *)
Fixpoint get_loop (fuel : nat) (ws : list window) (pid h tid : Z)
    : outcome (Z * Z) :=
  match fuel with
  | O => Pending
  | S fuel' =>
    let h := FindWindowEx_ ws h in
    if h =? 0 then Returned (h, tid)
    else
      match GetWindowThreadProcessId_ ws h with
      | None => Undefined
      | Some (t, dw) =>
        let tid := t in
        if pid =? dw then Returned (h, tid)
        else get_loop fuel' ws pid h tid
      end
  end.

(** [HWND get(DWORD pid, DWORD& tid)]. *)
Definition get (fuel : nat) (ws : list window) (pid tid : Z) : outcome (Z * Z) :=
  get_loop fuel ws pid 0 tid.

(** The handles of the windows are distinct and none is [nullptr]. *)
Definition well_formed (ws : list window) : Prop :=
  NoDup (map hwnd ws) /\ Forall (fun w => hwnd w <> 0) ws.

(** What a walk over [ws] from front to back finds for [pid], when [tid]
    holds [t] at the start. *)
Fixpoint first_owned (ws : list window) (pid t : Z) : Z * Z :=
  match ws with
  | [] => (0, t)
  | w :: rest =>
    if pid =? owner w then (hwnd w, thread w)
    else first_owned rest pid (thread w)
  end.

End Msg.

(** * Properties *)

Lemma since_app {A} (l new : list A) : since l (l ++ new) = new.
Proof. unfold since. apply drop_app_length. Qed.

(** ** Status words of Linux *)

Module LinuxFacts.
Import Linux.

(** A property checked on every integer of a range holds on the range. *)
Lemma range_check (P : Z -> bool) (lo : Z) (n : nat) :
  forallb P (map (fun i => lo + Z.of_nat i) (seq 0 n)) = true ->
  forall z, lo <= z < lo + Z.of_nat n -> P z = true.
Proof.
  intros Hall z Hz.
  rewrite forallb_forall in Hall. apply Hall.
  apply in_map_iff. exists (Z.to_nat (z - lo)). split; [lia |].
  apply in_seq. lia.
Qed.

Lemma exited_shape (code : Z) :
  0 <= code < 256 ->
  WIFEXITED (W_EXITCODE code 0) = true /\
  WEXITSTATUS (W_EXITCODE code 0) = code.
Proof.
  intros H.
  pose proof (range_check
    (fun c => WIFEXITED (W_EXITCODE c 0) && (WEXITSTATUS (W_EXITCODE c 0) =? c))
    0 256 eq_refl code H) as Hc.
  apply andb_true_iff in Hc as [H1 H2]. split; [exact H1 | lia].
Qed.

Lemma stopped_shape (sig : Z) :
  0 <= sig < 256 ->
  WIFEXITED (W_STOPCODE sig) = false /\
  WIFSTOPPED (W_STOPCODE sig) = true /\
  WSTOPSIG (W_STOPCODE sig) = sig.
Proof.
  intros H.
  pose proof (range_check
    (fun s => negb (WIFEXITED (W_STOPCODE s)) && WIFSTOPPED (W_STOPCODE s)
              && (WSTOPSIG (W_STOPCODE s) =? s))
    0 256 eq_refl sig H) as Hc.
  apply andb_true_iff in Hc as [Hc H3]. apply andb_true_iff in Hc as [H1 H2].
  apply negb_true_iff in H1. repeat split; [exact H1 | exact H2 | lia].
Qed.

Lemma signaled_shape (sig : Z) (core : bool) :
  1 <= sig < 127 ->
  let st := Z.lor (W_EXITCODE 0 sig) (if core then WCOREFLAG else 0) in
  WIFEXITED st = false /\ WIFSTOPPED st = false /\
  WIFSIGNALED st = true /\ WTERMSIG st = sig.
Proof.
  intros H st. subst st.
  pose proof (range_check
    (fun s => let st := Z.lor (W_EXITCODE 0 s) (if core then WCOREFLAG else 0) in
              negb (WIFEXITED st) && negb (WIFSTOPPED st)
              && WIFSIGNALED st && (WTERMSIG st =? s))
    1 126) as Hr.
  assert (Hc := Hr ltac:(destruct core; vm_compute; reflexivity) sig ltac:(lia)).
  cbv zeta in Hc.
  repeat (apply andb_true_iff in Hc as [Hc ?]).
  rewrite negb_true_iff in *. repeat split; try assumption; lia.
Qed.

(** A status word that is neither exited nor stopped nor signaled has all
    eight low bits set. *)
Lemma unexpected_shape (st : Z) :
  WIFEXITED st = false -> WIFSTOPPED st = false -> WIFSIGNALED st = false ->
  Z.land st 0xff = 0xff.
Proof.
  unfold WIFEXITED, WTERMSIG, WIFSTOPPED, WIFSIGNALED.
  replace (Z.land st 0x7f) with (st mod 128)
    by (symmetry; apply (Z.land_ones st 7); lia).
  replace (Z.land st 0xff) with (st mod 256)
    by (symmetry; apply (Z.land_ones st 8); lia).
  intros He Hs Hg.
  assert (Hb : 0 <= st mod 128 < 0 + Z.of_nat 128).
  { change (0 + Z.of_nat 128) with 128. apply Z.mod_pos_bound. lia. }
  pose proof (range_check
    (fun x => (x =? 0) || (Z.shiftr (Int.to_schar (x + 1)) 1 >? 0) || (x =? 127))
    0 128 eq_refl (st mod 128) Hb) as Hx.
  cbv beta in Hx. rewrite He, Hg in Hx. cbn [orb] in Hx.
  apply Z.eqb_eq in Hx. apply Z.eqb_neq in Hs.
  pose proof (Z.mod_pos_bound st 256 ltac:(lia)) as Hy.
  assert (Hsplit : st mod 128 = (st mod 256) mod 128).
  { symmetry. apply (Z.mod_mod_divide st 256 128). now exists 2. }
  rewrite Hx in Hsplit.
  assert (Hcases : st mod 256 = 127 \/ st mod 256 = 255).
  { pose proof (Z.div_mod (st mod 256) 128 ltac:(lia)) as Hd.
    rewrite <- Hsplit in Hd.
    assert (0 <= (st mod 256) / 128 < 2)
      by (split; [apply Z.div_pos; lia | apply Z.div_lt_upper_bound; lia]).
    lia. }
  destruct Hcases as [Hc | Hc]; [contradiction | exact Hc].
Qed.

(** What the macros extract lies in the range of a byte. *)
Lemma extracted_range (st : Z) :
  0 <= WEXITSTATUS st <= 255 /\ 0 <= WSTOPSIG st <= 255 /\
  0 <= WTERMSIG st <= 255.
Proof.
  assert (He : 0 <= WEXITSTATUS st <= 255).
  { unfold WEXITSTATUS. rewrite Z.shiftr_land.
    change (Z.shiftr 0xff00 8) with 0xff.
    replace (Z.land (Z.shiftr st 8) 0xff) with (Z.shiftr st 8 mod 256)
      by (symmetry; apply (Z.land_ones (Z.shiftr st 8) 8); lia).
    pose proof (Z.mod_pos_bound (Z.shiftr st 8) 256 ltac:(lia)). lia. }
  assert (Hg : 0 <= WTERMSIG st <= 255).
  { unfold WTERMSIG.
    replace (Z.land st 0x7f) with (st mod 128)
      by (symmetry; apply (Z.land_ones st 7); lia).
    pose proof (Z.mod_pos_bound st 128 ltac:(lia)). lia. }
  unfold WSTOPSIG. auto.
Qed.

End LinuxFacts.

(** ** The POSIX waiter *)

Module PosixWait.
Import Posix.

#[local] Arguments Z.eqb : simpl never.

(** The world after one turn of the loop of [wait]. *)
Lemma wait_loop_unfold (fuel : nat) (parent status : Z) (w : world) :
  wait_loop (S fuel) parent status w =
  let r := wait_replies w (nwaits w) in
  let pid := reply_pid r in
  let status' := match r with Reaped _ s => s | Failed _ => status end in
  let w1 := with_nwaits (S (nwaits w))
              (with_trace (trace w ++ [SysWaitpid parent 0]) w) in
  let w2 := if fail pid
            then with_errlog (errlog w1 ++ [Diag Err [AStr "waitpid"; AInt parent]]) w1
            else w1 in
  if negb (pid =? parent) then wait_loop fuel parent status' w2
  else (Returned status', w2).
Proof.
  destruct w as [t nf np fr pr tg replies n tr lg].
  cbn [wait_loop]. unfold bind at 1, sys_waitpid, emit, modify, gets, bind.
  cbn. destruct (replies n) as [p s | e]; cbn.
  - unfold bind, err, ret, modify. destruct (fail p); cbn;
      destruct (p =? parent); reflexivity.
  - unfold bind, err, ret, modify. change (fail (-1)) with true. cbn.
    destruct (-1 =? parent); reflexivity.
Qed.

(** The loop ends as soon as the kernel names the child, whatever came
    before, and has then called [waitpid] once per reply. *)
Lemma wait_loop_reaps (k : nat) :
  forall (fuel : nat) (w : world) (parent status st : Z),
  reaps w parent k st -> (k < fuel)%nat ->
  exists w',
    wait_loop fuel parent status w = (Returned st, w') /\
    nwaits w' = (nwaits w + S k)%nat /\
    trace w' = trace w ++ repeat (SysWaitpid parent 0) (S k) /\
    fdt w' = fdt w.
Proof.
  induction k as [| k IH]; intros fuel w parent status st [Hbefore Hat] Hfuel.
  - destruct fuel as [| fuel]; [lia |].
    rewrite wait_loop_unfold. rewrite Nat.add_0_r in Hat. rewrite Hat. cbn.
    rewrite Z.eqb_refl. cbn. eexists. split; [reflexivity |].
    destruct (fail parent), w; cbn; repeat split; lia.
  - destruct fuel as [| fuel]; [lia |].
    rewrite wait_loop_unfold. cbv zeta.
    assert (Hne : reply_pid (wait_replies w (nwaits w)) <> parent).
    { specialize (Hbefore 0%nat ltac:(lia)). now rewrite Nat.add_0_r in Hbefore. }
    apply Z.eqb_neq in Hne. rewrite Hne. cbn [negb].
    match goal with |- context [wait_loop fuel parent ?s ?w2] =>
      destruct (IH fuel w2 parent s st) as (w' & Hrun & Hn & Htr & Hfd)
    end.
    + split.
      * intros i Hi. specialize (Hbefore (S i) ltac:(lia)).
        destruct (fail _), w; cbn in *;
          (intros Heq; apply Hbefore; rewrite <- Heq; do 2 f_equal; lia).
      * destruct (fail _), w; cbn in *;
          (rewrite <- Hat; f_equal; lia).
    + lia.
    + exists w'. split; [exact Hrun |].
      rewrite Hn, Htr, Hfd.
      destruct (fail _), w; cbn; rewrite <- app_assoc; repeat split; lia.
Qed.

(** [wait] hands back what [decode] makes of the child's status word. *)
Lemma wait_returns (m : wait_macros) (fuel k : nat) (w : world) (pid st : Z) :
  reaps w pid k st -> (k < fuel)%nat ->
  fst (wait m fuel pid w) = Returned (decode m st).
Proof.
  intros Hr Hf. unfold wait, bind.
  destruct (wait_loop_reaps k fuel w pid (-1) st Hr Hf) as (w' & -> & _).
  reflexivity.
Qed.

(** C1, as the claim states it, fails: a child that exits with code 2 and a
    child killed by signal 2 have status words of different shapes, and
    [wait] returns the same integer 2 for both. *)
Lemma wait_conflates_exit_and_signal :
  let exited := Linux.W_EXITCODE 2 0 in
  let killed := Linux.W_EXITCODE 0 SIGINT in
  Linux.WIFEXITED exited = true /\
  Linux.WIFEXITED killed = false /\ Linux.WIFSIGNALED killed = true /\
  fst (wait Linux.macros 1 7 (reaping 7 exited)) = Returned 2 /\
  fst (wait Linux.macros 1 7 (reaping 7 killed)) = Returned 2.
Proof. vm_compute. repeat split; reflexivity. Qed.

(** C1, amended: for the process [wait] reaps, the status word is decoded
    with the platform macros into a bare integer: the exit code after a
    normal exit, the stop signal for a stopped process, the terminating
    signal for a signaled one.  The integer carries no tag. *)
Theorem wait_decodes_to_plain_int (fuel k : nat) (w : world) (pid st : Z) :
  reaps w pid k st -> (k < fuel)%nat ->
  (forall code, 0 <= code < 256 -> st = Linux.W_EXITCODE code 0 ->
     fst (wait Linux.macros fuel pid w) = Returned code) /\
  (forall sig, 0 <= sig < 256 -> st = Linux.W_STOPCODE sig ->
     fst (wait Linux.macros fuel pid w) = Returned sig) /\
  (forall sig (core : bool), 1 <= sig < 127 ->
     st = Z.lor (Linux.W_EXITCODE 0 sig) (if core then Linux.WCOREFLAG else 0) ->
     fst (wait Linux.macros fuel pid w) = Returned sig).
Proof.
  intros Hr Hf. rewrite (wait_returns _ _ _ _ _ _ Hr Hf).
  unfold decode. cbn [WIFEXITED WEXITSTATUS WIFSTOPPED WSTOPSIG WIFSIGNALED
                      WTERMSIG Linux.macros].
  repeat split.
  - intros code Hc ->. destruct (LinuxFacts.exited_shape code Hc) as [-> ->].
    reflexivity.
  - intros sig Hs ->.
    destruct (LinuxFacts.stopped_shape sig Hs) as (-> & -> & ->). reflexivity.
  - intros sig core Hs ->.
    destruct (LinuxFacts.signaled_shape sig core Hs) as (-> & -> & -> & ->).
    reflexivity.
Qed.

Lemma wait_decodes_to_plain_int_witness :
  fst (wait Linux.macros 1 7 (reaping 7 (Linux.W_EXITCODE 2 0))) = Returned 2.
Proof.
  refine (proj1 (wait_decodes_to_plain_int 1 0
                   (reaping 7 (Linux.W_EXITCODE 2 0)) 7 (Linux.W_EXITCODE 2 0)
                   _ _) 2 _ _).
  - split; [intros i Hi; lia | reflexivity].
  - lia.
  - lia.
  - reflexivity.
Defined.

(** C8, as the claim states it, fails: the status word 0xff has none of the
    three shapes, and [wait] returns 255 for it, the integer it also returns
    for a child that exited with code 255.  The claim is about the words
    the kernel is not expected to hand out, and 0xff is one of them; it is
    the only one for which the two results meet. *)
Lemma wait_anomaly_looks_like_exit :
  let odd := 0xff in
  let exited := Linux.W_EXITCODE 255 0 in
  Linux.WIFEXITED odd = false /\ Linux.WIFSTOPPED odd = false /\
  Linux.WIFSIGNALED odd = false /\ Linux.WIFEXITED exited = true /\
  fst (wait Linux.macros 1 7 (reaping 7 odd)) = Returned 255 /\
  fst (wait Linux.macros 1 7 (reaping 7 exited)) = Returned 255.
Proof. vm_compute. repeat split; reflexivity. Qed.

(** Whatever the macros, a status word of none of the three shapes is
    handed back as it is. *)
Lemma wait_falls_through
    (m : wait_macros) (fuel k : nat) (w : world) (pid st : Z) :
  reaps w pid k st -> (k < fuel)%nat ->
  WIFEXITED m st = false -> WIFSTOPPED m st = false ->
  WIFSIGNALED m st = false ->
  fst (wait m fuel pid w) = Returned st.
Proof.
  intros Hr Hf He Hs Hg. rewrite (wait_returns _ _ _ _ _ _ Hr Hf).
  unfold decode. now rewrite He, Hs, Hg.
Qed.

(** C8, amended: when the status word of the reaped process is neither
    exited nor stopped nor signaled, [wait] returns the raw status word
    itself, as the same kind of integer it returns in the other cases:
    there is no outcome of a kind of its own.  With the Linux encoding such
    a word has its eight low bits set, and what [wait] returns in the three
    expected cases lies in 0..255; so the integer returned for an
    unexpected word differs from every exit code, stop signal and
    terminating signal, for every such word but 0xff, which comes back as
    255. *)
Theorem wait_returns_unexpected_status_raw
    (fuel k : nat) (w : world) (pid st : Z) :
  reaps w pid k st -> (k < fuel)%nat ->
  (forall m : wait_macros,
     WIFEXITED m st = false -> WIFSTOPPED m st = false ->
     WIFSIGNALED m st = false ->
     fst (wait m fuel pid w) = Returned st) /\
  (Linux.WIFEXITED st = false -> Linux.WIFSTOPPED st = false ->
   Linux.WIFSIGNALED st = false ->
   Z.land st 0xff = 0xff /\
   (st <> 0xff ->
    forall st',
      Linux.WIFEXITED st' = true \/ Linux.WIFSTOPPED st' = true \/
      Linux.WIFSIGNALED st' = true ->
      decode Linux.macros st' <> st)) /\
  (forall st',
     Linux.WIFEXITED st' = true \/ Linux.WIFSTOPPED st' = true \/
     Linux.WIFSIGNALED st' = true ->
     0 <= decode Linux.macros st' <= 255).
Proof.
  intros Hr Hf.
  assert (Hrange : forall st',
            Linux.WIFEXITED st' = true \/ Linux.WIFSTOPPED st' = true \/
            Linux.WIFSIGNALED st' = true ->
            0 <= decode Linux.macros st' <= 255).
  { intros st' Hshape.
    destruct (LinuxFacts.extracted_range st') as (He & Hs & Hg).
    unfold decode.
    cbn [WIFEXITED WEXITSTATUS WIFSTOPPED WSTOPSIG WIFSIGNALED WTERMSIG
         Linux.macros].
    destruct (Linux.WIFEXITED st'); [exact He |].
    destruct (Linux.WIFSTOPPED st'); [exact Hs |].
    destruct (Linux.WIFSIGNALED st'); [exact Hg |].
    destruct Hshape as [H | [H | H]]; discriminate H. }
  split; [| split; [| exact Hrange]].
  - intros m. apply (wait_falls_through m fuel k w pid st Hr Hf).
  - intros He Hs Hg.
    pose proof (LinuxFacts.unexpected_shape st He Hs Hg) as Hlow.
    split; [exact Hlow |].
    intros Hne st' Hshape Heq. specialize (Hrange st' Hshape).
    rewrite Heq in Hrange. apply Hne.
    assert (Hmod : st mod 256 = 0xff).
    { rewrite <- Hlow. symmetry. apply (Z.land_ones st 8). lia. }
    rewrite Z.mod_small in Hmod by lia. exact Hmod.
Qed.

Lemma wait_returns_unexpected_status_raw_witness :
  fst (wait Linux.macros 1 7 (reaping 7 0xffff)) = Returned 0xffff /\
  decode Linux.macros (Linux.W_EXITCODE 255 0) <> 0xffff.
Proof.
  destruct (wait_returns_unexpected_status_raw 1 0 (reaping 7 0xffff) 7 0xffff)
    as (Hraw & Hodd & _).
  - split; [intros i Hi; lia | reflexivity].
  - lia.
  - split.
    + apply (Hraw Linux.macros); reflexivity.
    + destruct Hodd as [_ Hdiff]; try reflexivity.
      apply Hdiff; [discriminate | left; reflexivity].
Defined.

(** C3, as the claim states it, fails: after a [waitpid] that failed with
    ECHILD, which is not an interruption, [wait] calls [waitpid] again. *)
Lemma wait_retries_after_ECHILD :
  Linux.ECHILD <> Linux.EINTR /\
  wait_replies (failing_once Linux.ECHILD 7 0) 0 = Failed Linux.ECHILD /\
  fst (wait Linux.macros 2 7 (failing_once Linux.ECHILD 7 0)) = Returned 0 /\
  trace (snd (wait Linux.macros 2 7 (failing_once Linux.ECHILD 7 0)))
  = [SysWaitpid 7 0; SysWaitpid 7 0].
Proof. vm_compute. repeat split; try reflexivity. discriminate. Qed.

(** C3, amended: [wait] calls [waitpid] on the requested child identifier
    again and again until the identifier returned equals the requested one;
    it retries after every reply that does not, whatever the reason of a
    failure.  When the kernel reports the child after [k] other replies, the
    loop ends after [k + 1] calls with that child's status. *)
Theorem wait_loops_until_reaped
    (m : wait_macros) (fuel k : nat) (w : world) (pid st : Z) :
  reaps w pid k st -> (k < fuel)%nat ->
  exists w',
    wait m fuel pid w = (Returned (decode m st), w') /\
    since (trace w) (trace w') = repeat (SysWaitpid pid 0) (S k).
Proof.
  intros Hr Hf. unfold wait, bind.
  destruct (wait_loop_reaps k fuel w pid (-1) st Hr Hf) as (w' & -> & _ & Htr & _).
  exists w'. split; [reflexivity |]. rewrite Htr. apply since_app.
Qed.

Lemma wait_loops_until_reaped_witness :
  exists w',
    wait Linux.macros 2 7 (failing_once Linux.EINTR 7 0) = (Returned 0, w') /\
    since (trace (failing_once Linux.EINTR 7 0)) (trace w')
    = [SysWaitpid 7 0; SysWaitpid 7 0].
Proof.
  refine (wait_loops_until_reaped Linux.macros 2 1
            (failing_once Linux.EINTR 7 0) 7 0 _ _).
  - split; [| reflexivity].
    intros i Hi. assert (i = 0%nat) as -> by lia. discriminate.
  - lia.
Defined.

End PosixWait.

(** ** The signaler *)

Module Signaler.

(** [sys::kill] and [sys::quit] of the POSIX backend issue one [kill] system
    call and write one diagnostic when it fails. *)
Lemma posix_signal_run (pid : Z) (w : Posix.world) :
  let hit := bool_decide (pid ∈ Posix.targets w) in
  let said (name : string) :=
    if hit then [] else [Diag Err [AStr name; AInt pid]] in
  Posix.kill pid w =
    (Returned tt,
     Posix.with_errlog (Posix.errlog w ++ said "SIGTERM"%string)
       (Posix.with_trace (Posix.trace w ++ [Posix.SysKill pid SIGTERM]) w)) /\
  Posix.quit pid w =
    (Returned tt,
     Posix.with_errlog (Posix.errlog w ++ said "SIGINT"%string)
       (Posix.with_trace (Posix.trace w ++ [Posix.SysKill pid SIGINT]) w)).
Proof.
  destruct w as [t nf np fr pr tg replies n tr lg]. cbn.
  unfold Posix.kill, Posix.quit, Posix.sys_kill, Posix.emit, Posix.err,
    bind, modify, gets, ret. cbn.
  destruct (bool_decide (pid ∈ tg)); cbn; rewrite ?app_nil_r; split; reflexivity.
Qed.




(** C7: [kill] delivers SIGTERM and [quit] delivers SIGINT to the process
    named, two different signals; on the handle-based platform [kill] opens
    the process and asks [TerminateProcess] to end it with exit code 0,
    which a running process then has. *)
Theorem signaler_actions (pid : Z) (w : Posix.world) (w32 : Win32.world) :
  since (Posix.trace w) (Posix.trace (snd (Posix.kill pid w)))
  = [Posix.SysKill pid SIGTERM] /\
  since (Posix.trace w) (Posix.trace (snd (Posix.quit pid w)))
  = [Posix.SysKill pid SIGINT] /\
  SIGTERM <> SIGINT /\
  let h := Win32.handle_value (Win32.next w32) in
  let w32' := snd (Win32.kill pid w32) in
  match Win32.procs w32 !! pid with
  | Some (Win32.Running _) =>
    since (Win32.trace w32) (Win32.trace w32')
    = [Win32.OpenProcess pid h; Win32.TerminateProcess h 0 true;
       Win32.CloseHandle h] /\
    Win32.procs w32' !! pid = Some (Win32.Ended 0)
  | Some (Win32.Ended _) =>
    since (Win32.trace w32) (Win32.trace w32')
    = [Win32.OpenProcess pid h; Win32.TerminateProcess h 0 false;
       Win32.CloseHandle h]
  | None =>
    since (Win32.trace w32) (Win32.trace w32') = [Win32.OpenProcess pid 0]
  end.
Proof.
  destruct (posix_signal_run pid w) as [Hk Hq]. cbv zeta in *.
  rewrite Hk, Hq.
  split; [destruct w; apply since_app |].
  split; [destruct w; apply since_app |].
  split; [discriminate |].
  destruct w32 as [hs nx np pb st sa fa ps npid ch wf qf cr tr lg].
  unfold Win32.kill, Win32.process_ctor, Win32.process_dtor, Win32.OpenProcess_,
    Win32.handle_dtor, Win32.TerminateProcess_, Win32.CloseHandle_,
    Win32.new_handle, Win32.process_of, Win32.warn, Win32.err, Win32.report,
    Win32.emit, bind, modify, gets, ret. cbn.
  destruct (ps !! pid) as [s |] eqn:Hp; cbn.
  - rewrite lookup_insert_eq. cbn. rewrite Hp. destruct s; cbn.
    + rewrite lookup_insert_eq, <- !app_assoc. split; [apply since_app | reflexivity].
    + rewrite <- !app_assoc. apply since_app.
  - apply since_app.
Qed.

End Signaler.

(** ** The Win32 backend *)

Module Win32Facts.
Import Win32.

Lemma since_same {A} (l : list A) : since l l = [].
Proof. unfold since. apply drop_all. Qed.

Lemma is_open_insert_eq (t : gmap Z hinfo) (h : Z) (i : hinfo) :
  is_open (<[h := i]> t) h = true.
Proof. unfold is_open. now rewrite lookup_insert_eq. Qed.

Lemma is_open_insert_ne (t : gmap Z hinfo) (h h' : Z) (i : hinfo) :
  h' <> h -> is_open (<[h' := i]> t) h = is_open t h.
Proof. intros H. unfold is_open. now rewrite lookup_insert_ne. Qed.

Lemma is_open_alter (t : gmap Z hinfo) (h h' : Z) (f : hinfo -> hinfo) :
  is_open (alter f h' t) h = is_open t h.
Proof.
  unfold is_open. rewrite lookup_alter.
  case_decide; subst; destruct (t !! h); reflexivity.
Qed.

Lemma handle_value_inj (a b : positive) :
  handle_value a = handle_value b -> a = b.
Proof. unfold handle_value. intros H. now injection H. Qed.

Lemma fail_h_handle_value (n : positive) : fail_h (handle_value n) = false.
Proof. reflexivity. Qed.

Lemma fail_h_null : fail_h 0 = true.
Proof. reflexivity. Qed.

(** Clearing the inherit flag, as [run] asks for it. *)
Lemma clear_inherit (h : Z) (w : world) :
  SetHandleInformation_ h HANDLE_FLAG_INHERIT 0 w =
  let ok := negb (sticky w h) && is_open (handles w) h in
  (Returned ok,
   with_handles (if ok then alter (set_inherit false) h else fun t => t)
     (with_trace (trace w ++ [SetHandleInformation h HANDLE_FLAG_INHERIT 0 ok]) w)).
Proof.
  destruct w as [hs nx np pb st sa fa ps npid ch wf qf cr tr lg].
  unfold SetHandleInformation_, bind, gets, emit, modify, ret. cbn.
  destruct (negb (st h) && is_open hs h); reflexivity.
Qed.

(** A child inherits exactly the handles flagged inheritable. *)
Lemma elem_of_inheritable_handles (t : gmap Z hinfo) (h : Z) :
  h ∈ inheritable_handles t <->
  exists i, t !! h = Some i /\ inheritable i = true.
Proof.
  unfold inheritable_handles. rewrite list_elem_of_In, in_map_iff. split.
  - intros ([h' i] & <- & Hin). apply filter_In in Hin as [Hin Hflag].
    apply list_elem_of_In, elem_of_map_to_list in Hin. now exists i.
  - intros (i & Hl & Hflag). exists (h, i). split; [reflexivity |].
    apply filter_In. split; [| exact Hflag].
    now apply list_elem_of_In, elem_of_map_to_list.
Qed.

Lemma nth_pipe_0 (a b c : pipe) : nth_pipe [a; b; c] 0 = a.
Proof. reflexivity. Qed.

Lemma nth_pipe_1 (a b c : pipe) : nth_pipe [a; b; c] 1 = b.
Proof. reflexivity. Qed.

Lemma nth_pipe_2 (a b c : pipe) : nth_pipe [a; b; c] 2 = c.
Proof. reflexivity. Qed.

Lemma insert_0 {A} (x a b c : A) : <[0%nat := x]> [a; b; c] = [x; b; c].
Proof. reflexivity. Qed.

Lemma insert_1 {A} (x a b c : A) : <[1%nat := x]> [a; b; c] = [a; x; c].
Proof. reflexivity. Qed.

Lemma insert_2 {A} (x a b c : A) : <[2%nat := x]> [a; b; c] = [a; b; x].
Proof. reflexivity. Qed.

(** Handle values differ when their numbers differ. *)
Ltac hv := let H := fresh in intros H; apply handle_value_inj in H; lia.

(** Symbolic execution: unfold the code and the record plumbing, leave the
    system calls with a verdict of their own to the lemmas above. *)
Ltac crank := lazy beta iota zeta delta
  [run run_body pair_ctor pair_dtor pipe_ctor pipe_dtor pipe_fail handle_dtor
   handle_open mark open_end process_ctor process_dtor kill wait
   CreatePipe_ new_handle CreateProcess_ CloseHandle_ open_osfhandle OpenProcess_
   WaitForSingleObject_ GetExitCodeProcess_ TerminateProcess_ process_of
   err warn report emit bind ret modify gets undefined for_each for_return
   with_trace with_pipes with_next with_handles with_child with_procs with_crt
   with_errlog handles next npipes pipe_budget sticky startable fate procs
   next_pid children wait_fails query_fails crt trace errlog
   pair fd read write fst snd negb andb orb Nat.eqb].

Ltac tidy :=
  rewrite ?nth_pipe_0, ?nth_pipe_1, ?nth_pipe_2, ?insert_0, ?insert_1, ?insert_2,
          ?fail_h_handle_value, ?fail_h_null, ?clear_inherit, ?is_open_alter;
  rewrite ?is_open_insert_ne by hv;
  rewrite ?is_open_insert_eq, ?lookup_insert_eq.

Ltac go := repeat progress (crank; tidy).

(** Name the result of [run], to execute the call once. *)
Ltac hold_run :=
  match goal with
  | |- context [run ?a ?b ?c] =>
    let res := fresh "res" in
    let E := fresh "E" in
    remember (run a b c) as res eqn:E; symmetry in E; revert E
  end.

(** Membership in a list written out. *)
Ltac pick H :=
  repeat (apply elem_of_cons in H as [H | H]; [try discriminate H |]);
  try (apply elem_of_nil in H; contradiction).

(** Lookups through the updates of a handle table. *)
Ltac look :=
  repeat first
    [ rewrite lookup_insert_eq | rewrite lookup_alter_eq
    | rewrite lookup_delete_ne by hv | rewrite lookup_insert_ne by hv
    | rewrite lookup_alter_ne by hv ].

Ltac calls := rewrite <- ?app_assoc; rewrite ?since_app, ?since_same; cbn [app].

Lemma is_open_delete_eq (t : gmap Z hinfo) (h : Z) :
  is_open (delete h t) h = false.
Proof. unfold is_open. now rewrite lookup_delete_eq. Qed.

Lemma is_open_delete_ne (t : gmap Z hinfo) (h h' : Z) :
  h' <> h -> is_open (delete h' t) h = is_open t h.
Proof. intros H. unfold is_open. now rewrite lookup_delete_ne. Qed.

Ltac apart := first [assumption | apply not_eq_sym; assumption | hv].

(** No handle is open that was not open before. *)
Ltac noleak :=
  let h := fresh "h" in
  intros h;
  repeat match goal with
         | |- context [delete ?k _] =>
           lazymatch goal with
           | _ : k <> h |- _ => fail
           | _ => destruct (decide (k = h)) as [<- |]
           end
         end;
  rewrite ?is_open_delete_eq;
  rewrite ?is_open_delete_ne by apart;
  rewrite ?is_open_delete_eq;
  rewrite ?is_open_alter;
  rewrite ?is_open_insert_ne by apart;
  try discriminate; try (intros; assumption).

(** Every way [run] can go, by the verdicts of [CreatePipe],
    [SetHandleInformation], the formatting and [CreateProcess]: what was
    called, what the child inherited, what is left open. *)
Lemma run_cases (fd : list Z) (argv : list string) (w : world) :
  let r := run fd argv w in
  let w' := snd r in
  let called := since (trace w) (trace w') in
  let stdin_w := handle_value (Pos.succ (next w)) in
  let stdout_r := handle_value (Pos.succ (Pos.succ (next w))) in
  let stderr_r :=
    handle_value (Pos.succ (Pos.succ (Pos.succ (Pos.succ (next w))))) in
  ((forall c, c ∈ since (children w) (children w') ->
      (exists cmd rest,
         called =
         [CreatePipe true; CreatePipe true; CreatePipe true;
          SetHandleInformation stdin_w HANDLE_FLAG_INHERIT 0 true;
          SetHandleInformation stdout_r HANDLE_FLAG_INHERIT 0 true;
          SetHandleInformation stderr_r HANDLE_FLAG_INHERIT 0 true;
          CreateProcess cmd true DETACHED_PROCESS true] ++ rest) /\
      handles w' !! stdin_w = Some (HInfo (PipeWrite (npipes w)) false) /\
      handles w' !! stdout_r = Some (HInfo (PipeRead (S (npipes w))) false) /\
      handles w' !! stderr_r = Some (HInfo (PipeRead (S (S (npipes w)))) false) /\
      (stdin_w ∉ inherited c) /\ (stdout_r ∉ inherited c) /\
      (stderr_r ∉ inherited c)) /\
   (forall h mask flags, SetHandleInformation h mask flags false ∈ called ->
      fst r = Returned (invalid, fd) /\
      children w' = children w /\
      forall cmd inherit flags' ok,
        CreateProcess cmd inherit flags' ok ∉ called)) /\
  ((CreatePipe false ∈ called ->
    fst r = Returned (invalid, fd) /\
    (forall h, is_open (handles w') h = true -> is_open (handles w) h = true) /\
    forall cmd inherit flags ok, CreateProcess cmd inherit flags ok ∉ called) /\
   (forall cmd inherit flags, CreateProcess cmd inherit flags false ∈ called ->
    fst r = Returned (invalid, fd) /\
    (forall h, is_open (handles w') h = true -> is_open (handles w) h = true) /\
    children w' = children w)).
Proof.
  destruct w as [hs nx np pb st sa fa ps npid ch wf qf cr tr lg].
  cbv zeta. hold_run. go.
  destruct pb as [| [| [| pb]]]; go;
    repeat match goal with
           | |- context [st ?h] => destruct (st h) eqn:?; go
           end;
    try (destruct (format_cmd _ _ _) eqn:?; go);
    try (destruct (sa _) eqn:?; go);
    intros <-; go; calls.
  all: split;
    [ split; [intros c Hc | intros h mask flags' Hmark]
    | split; [intros Hpipe | intros cmd' i' f' Hcreate] ].
  all: try (pick Hc; fail).
  all: try (pick Hmark; fail).
  all: try (pick Hpipe; fail).
  all: try (pick Hcreate; fail).
  all: try (split; [reflexivity | split; [reflexivity |]];
            intros cmd1 i1 f1 ok1 Hcall; pick Hcall; fail).
  all: try (split; [reflexivity | split; [noleak | try reflexivity]];
            try (intros cmd1 i1 f1 ok1 Hcall; pick Hcall); fail).
  apply list_elem_of_singleton in Hc. subst c. cbn [inherited].
  split; [eexists _, _; reflexivity |].
  repeat split; try (look; reflexivity).
  all: rewrite elem_of_inheritable_handles; intros (i & Hl & Hflag);
    revert Hl; look; cbn; intros [= <-]; discriminate Hflag.
Qed.

(** On the handle-based platform, when a pipe cannot be made or
    [CreateProcess] fails, [run] returns the invalid identifier, creates no
    process and leaves no handle open that was not open before. *)
Lemma win32_run_fails_atomically (fd : list Z) (argv : list string) (w : world) :
  let r := run fd argv w in
  let w' := snd r in
  let called := since (trace w) (trace w') in
  (CreatePipe false ∈ called ->
   fst r = Returned (invalid, fd) /\
   (forall h, is_open (handles w') h = true -> is_open (handles w) h = true) /\
   forall cmd inherit flags ok, CreateProcess cmd inherit flags ok ∉ called) /\
  (forall cmd inherit flags, CreateProcess cmd inherit flags false ∈ called ->
   fst r = Returned (invalid, fd) /\
   (forall h, is_open (handles w') h = true -> is_open (handles w) h = true) /\
   children w' = children w).
Proof. exact (proj2 (run_cases fd argv w)). Qed.

(** C6: before [CreateProcess], [run] clears the inherit flag of the end of
    each pipe the parent keeps, the write end of the pipe for standard input
    and the read ends of the pipes for standard output and error, so the
    child does not inherit them; and when clearing a flag fails, [run]
    returns the failure without calling [CreateProcess]. *)
Theorem run_marks_parent_ends (fd : list Z) (argv : list string) (w : world) :
  let r := run fd argv w in
  let w' := snd r in
  let called := since (trace w) (trace w') in
  let stdin_w := handle_value (Pos.succ (next w)) in
  let stdout_r := handle_value (Pos.succ (Pos.succ (next w))) in
  let stderr_r :=
    handle_value (Pos.succ (Pos.succ (Pos.succ (Pos.succ (next w))))) in
  (forall c, c ∈ since (children w) (children w') ->
     (exists cmd rest,
        called =
        [CreatePipe true; CreatePipe true; CreatePipe true;
         SetHandleInformation stdin_w HANDLE_FLAG_INHERIT 0 true;
         SetHandleInformation stdout_r HANDLE_FLAG_INHERIT 0 true;
         SetHandleInformation stderr_r HANDLE_FLAG_INHERIT 0 true;
         CreateProcess cmd true DETACHED_PROCESS true] ++ rest) /\
     handles w' !! stdin_w = Some (HInfo (PipeWrite (npipes w)) false) /\
     handles w' !! stdout_r = Some (HInfo (PipeRead (S (npipes w))) false) /\
     handles w' !! stderr_r = Some (HInfo (PipeRead (S (S (npipes w)))) false) /\
     (stdin_w ∉ inherited c) /\ (stdout_r ∉ inherited c) /\
     (stderr_r ∉ inherited c)) /\
  (forall h mask flags, SetHandleInformation h mask flags false ∈ called ->
     fst r = Returned (invalid, fd) /\
     children w' = children w /\
     forall cmd inherit flags' ok,
       CreateProcess cmd inherit flags' ok ∉ called).
Proof. exact (proj1 (run_cases fd argv w)). Qed.

Lemma run_marks_parent_ends_witness :
  match children (snd (run [-1; -1; -1] ["a"%string] (booted (fun _ => true) []))) with
  | [c] =>
    (handle_value 2 ∉ inherited c) /\ (handle_value 3 ∉ inherited c) /\
    (handle_value 5 ∉ inherited c)
  | _ => False
  end.
Proof.
  pose proof (proj1 (run_marks_parent_ends [-1; -1; -1] ["a"%string]
                       (booted (fun _ => true) []))) as H.
  cbv zeta in H. revert H.
  destruct (children (snd (run _ _ _))) as [| c [| c' rest]] eqn:E;
    try (vm_compute in E; discriminate E).
  intros H. destruct (H c) as (_ & _ & _ & _ & Hn); [apply list_elem_of_here |].
  exact Hn.
Defined.

(** C10: when the process cannot be opened from its identifier, [wait] does
    not call [WaitForSingleObject]; it returns at once with the invalid
    sentinel converted to [int], that is -1, the value it also returns for a
    process whose exit code really is 0xFFFFFFFF. *)
Theorem wait_stale_identifier (pid : Z) (w : world) :
  procs w !! pid = None ->
  fst (wait pid w) = Returned (Int.to_int (Int.to_dword invalid)) /\
  Int.to_int (Int.to_dword invalid) = -1 /\
  since (trace w) (trace (snd (wait pid w))) = [OpenProcess pid 0] /\
  forall (w2 : world) (s : pstate),
    procs w2 !! pid = Some s -> Int.to_dword (final_code s) = 0xFFFFFFFF ->
    wait_fails w2 = false -> query_fails w2 = false ->
    fst (wait pid w2) = fst (wait pid w).
Proof.
  intros Hgone.
  assert (Hw : wait pid w =
               (Returned (Int.to_int (Int.to_dword invalid)),
                with_errlog (errlog w ++ [Diag Warn [AInt pid]])
                  (with_trace (trace w ++ [OpenProcess pid 0]) w))).
  { destruct w as [hs nx np pb st sa fa ps npid ch wf qf cr tr lg].
    cbn in Hgone. go. rewrite Hgone. go. reflexivity. }
  rewrite Hw. split; [reflexivity |]. split; [reflexivity |].
  split; [destruct w; cbn; apply since_app |].
  intros w2 s Hs Hcode Hwf Hqf.
  destruct w2 as [hs nx np pb st sa fa ps npid ch wf qf cr tr lg].
  cbn in Hs, Hwf, Hqf. subst wf qf. go. rewrite Hs. go. rewrite Hs. go.
  destruct s as [f | c]; go; cbn in Hcode.
  - rewrite Hcode. reflexivity.
  - rewrite Hs. go. rewrite Hcode. reflexivity.
Qed.

Lemma wait_stale_identifier_witness :
  fst (wait 7 (booted (fun _ => true) [])) = Returned (-1) /\
  fst (wait 7 (booted (fun _ => true) [(7, Ended (-1))])) = Returned (-1).
Proof.
  pose proof (wait_stale_identifier 7 (booted (fun _ => true) []) eq_refl)
    as (Hret & Hval & _ & Hsame).
  split.
  - rewrite Hret. f_equal.
  - rewrite (Hsame (booted (fun _ => true) [(7, Ended (-1))]) (Ended (-1))
               eq_refl eq_refl eq_refl eq_refl).
    rewrite Hret. f_equal.
Defined.

(** C9, evaluated: for the argument vector [a], [b] the buffer holds the
    text of [a], a terminator, then the text of [b], so the command line
    [CreateProcess] is given ends after the first argument. *)
Lemma run_command_line_ends_after_first_argument :
  format_cmd ["a"; "b"]%string 0 (repeat NUL (Z.to_nat MAX_PATH)) =
    Formatted (list_ascii_of_string "a " ++ [NUL] ++
               list_ascii_of_string "b " ++ [NUL] ++ repeat NUL 254) /\
  map cmdline
    (children (snd (run [-1; -1; -1] ["a"; "b"]%string (booted (fun _ => true) []))))
  = ["a "%string].
Proof. split; vm_compute; reflexivity. Qed.

End Win32Facts.

(** ** The POSIX launcher *)

Module PosixRun.
Import Posix.

Lemma lowest_free_Some (t : gmap Z file) (limit : nat) (r : Z) :
  lowest_free t limit = Some r -> t !! r = None /\ 0 <= r.
Proof.
  unfold lowest_free. intros H. apply find_some in H as [Hin Hfree]. split.
  - unfold is_free in Hfree. now destruct (t !! r).
  - apply in_map_iff in Hin as (n & <- & _). lia.
Qed.

Lemma fail_nonneg (r : Z) : 0 <= r -> fail r = false.
Proof. intros H. unfold fail, invalid. apply Z.eqb_neq. lia. Qed.

Lemma fail_invalid : fail invalid = true.
Proof. reflexivity. Qed.

Lemma fail_minus_one : fail (-1) = true.
Proof. reflexivity. Qed.

Lemma fail_zero : fail 0 = false.
Proof. reflexivity. Qed.

Lemma is_free_insert_eq (t : gmap Z file) (k : Z) (v : file) :
  is_free (<[k := v]> t) k = false.
Proof. unfold is_free. now rewrite lookup_insert_eq. Qed.

Lemma is_free_insert_ne (t : gmap Z file) (k k' : Z) (v : file) :
  k' <> k -> is_free (<[k' := v]> t) k = is_free t k.
Proof. intros. unfold is_free. now rewrite lookup_insert_ne. Qed.

Lemma is_free_delete_ne (t : gmap Z file) (k k' : Z) :
  k' <> k -> is_free (delete k' t) k = is_free t k.
Proof. intros. unfold is_free. now rewrite lookup_delete_ne. Qed.

(** An open descriptor differs from an unused one. *)
Lemma open_not_free (t : gmap Z file) (a b : Z) :
  is_free t a = false -> t !! b = None -> a <> b.
Proof. unfold is_free. intros Ha Hb ->. now rewrite Hb in Ha. Qed.

Lemma pair_at_0 (a b c : pipe) : nth_pipe [a; b; c] 0 = a.
Proof. reflexivity. Qed.

Lemma pair_at_1 (a b c : pipe) : nth_pipe [a; b; c] 1 = b.
Proof. reflexivity. Qed.

Lemma pair_at_2 (a b c : pipe) : nth_pipe [a; b; c] 2 = c.
Proof. reflexivity. Qed.

(** In the child, [run] never comes back to its caller. *)
Lemma child_side_never_returns (l : locals) (argv : list string) (w : world)
    (v : Z * locals) :
  fst (child_side l argv w) <> Returned v.
Proof.
  unfold child_side, bind at 1.
  destruct (for_each _ _ _ _) as [[l' | | | |] w1]; try discriminate.
  destruct argv as [| front rest]; [discriminate |].
  unfold sys_execvp, emit, err, exit, bind, modify, gets, ret. cbn.
  destruct (bool_decide _); discriminate.
Qed.

(** What the constructor of a pipe does: no descriptor is left, or two
    unused ones are taken. *)
Lemma pipe_ctor_cases (w : world) :
  pipe_ctor w =
    (Returned (invalid, invalid),
     with_errlog (errlog w ++ [Diag Err [AStr "pipe"]])
       (with_trace (trace w ++ [SysPipe invalid invalid]) w)) \/
  exists r wr,
    fail r = false /\ fail wr = false /\
    fdt w !! r = None /\ <[r := PipeRead (npipes w)]> (fdt w) !! wr = None /\
    pipe_ctor w =
      (Returned (r, wr),
       with_npipes (S (npipes w))
         (with_fdt (fun _ => <[wr := PipeWrite (npipes w)]>
                               (<[r := PipeRead (npipes w)]> (fdt w)))
            (with_trace (trace w ++ [SysPipe r wr]) w))).
Proof.
  destruct w as [t nf np fr pr tg replies n tr lg].
  unfold pipe_ctor, sys_pipe, emit, err, bind, modify, gets, ret.
  cbn -[lowest_free].
  destruct (lowest_free t nf) as [r |] eqn:Er; [| left; reflexivity].
  destruct (lowest_free (<[r := PipeRead np]> t) nf) as [wr |] eqn:Ew;
    [| left; reflexivity].
  right. exists r, wr.
  apply lowest_free_Some in Er as [Fr Pr]. apply lowest_free_Some in Ew as [Fw Pw].
  repeat split; auto using fail_nonneg.
Qed.

(** Symbolic execution of [run]; the constructor of a pipe and the child
    are left folded. *)
Ltac crank := lazy beta iota zeta delta
  [run run_body pair_ctor pair_dtor pipe_dtor pipe_fail descriptor_dtor
   keep_end get set existsb sys_close sys_fork
   err emit bind ret modify gets exit for_each
   with_fdt with_npipes with_nwaits with_trace with_errlog
   fdt nofile npipes fork_reply programs targets wait_replies nwaits trace errlog
   pair fd fst snd negb andb orb Nat.eqb].

Ltac tidy :=
  rewrite ?pair_at_0, ?pair_at_1, ?pair_at_2,
          ?Win32Facts.insert_0, ?Win32Facts.insert_1, ?Win32Facts.insert_2,
          ?fail_invalid, ?fail_minus_one, ?fail_zero, ?Z.eqb_refl;
  repeat match goal with H : (_ =? _) = _ |- _ => rewrite H end;
  repeat match goal with H : fail _ = _ |- _ => rewrite H end;
  repeat match goal with H : is_free _ _ = _ |- _ => rewrite H end;
  repeat (rewrite delete_insert_id by assumption);
  rewrite ?is_free_insert_eq.

Ltac go := repeat progress (crank; tidy).

Ltac hold_run :=
  match goal with
  | |- context [run ?a ?b ?c] =>
    let res := fresh "res" in
    let E := fresh "E" in
    remember (run a b c) as res eqn:E; symmetry in E; revert E
  end.

(** The next pipe is built: it fails, or two unused descriptors are taken. *)
Ltac ctor :=
  match goal with
  | |- context [pipe_ctor ?W] =>
    let r := fresh "r" in
    let wr := fresh "wr" in
    let E := fresh "E" in
    destruct (pipe_ctor_cases W) as [E | (r & wr & ? & ? & ? & ? & E)];
    rewrite E; clear E;
    cbn [fdt npipes] in *
  end.

(** Whether a descriptor is open, when the tables do not tell. *)
Ltac probe :=
  match goal with
  | |- context [is_free ?t ?k] => destruct (is_free t k) eqn:?
  end.

Ltac pick H :=
  repeat (apply elem_of_cons in H as [H | H]; [try discriminate H |]);
  try (apply elem_of_nil in H; contradiction).

Ltac calls :=
  rewrite <- ?app_assoc; rewrite ?since_app, ?Win32Facts.since_same; cbn [app].

(** On the descriptor-based platform: when one of the three pipes could not
    be made, [run] returns the invalid identifier without calling [fork];
    when the pipes exist and [fork] fails, [run] returns that failure.  In
    both cases the descriptor table is the one the call started with. *)
Lemma posix_run_fails_atomically (fd : list Z) (argv : list string) (w : world)
    (pair : list pipe) (w1 : world) :
  pair_ctor w = (Returned pair, w1) ->
  let r := run fd argv w in
  let w' := snd r in
  let called := since (trace w) (trace w') in
  (existsb pipe_fail pair = true ->
   fst r = Returned (invalid, fd) /\ fdt w' = fdt w /\
   (SysFork ∉ called) /\
   forall path args, SysExecvp path args ∉ called) /\
  (existsb pipe_fail pair = false -> fail (fork_reply w) = true ->
   fst r = Returned (fork_reply w, fd) /\ fdt w' = fdt w /\
   forall path args, SysExecvp path args ∉ called).
Proof.
  destruct w as [t nf np fr pr tg replies n tr lg]. cbv zeta. revert pair w1.
  hold_run. go; repeat (ctor; go).
  all: intros E pair w1 [= <- <-]; revert E; go.
  all: split; [intros Hp | intros Hp Hfail; cbn [fork_reply] in Hfail];
    revert E.
  all: try discriminate Hp.
  all: try (apply Z.eqb_eq in Hfail; subst fr; change (invalid =? 0) with false).
  all: go; intros <-; go; calls.
  all: repeat split; try reflexivity.
  all: try (intros Hin; pick Hin; fail).
  all: intros path args Hin; pick Hin.
Qed.

(** Two descriptors differ. *)
Ltac ne := first [assumption | apply not_eq_sym; assumption | discriminate].

Ltac look :=
  repeat first
    [ rewrite lookup_insert_eq | rewrite lookup_delete_eq
    | rewrite lookup_insert_ne by ne | rewrite lookup_delete_ne by ne ].

(** Symbolic execution of the child. *)
Ltac crank_child := lazy beta iota zeta delta
  [child_side rewire close_end get set sys_close sys_dup2 sys_execvp
   err emit bind ret modify gets exit for_each
   with_fdt with_npipes with_nwaits with_trace with_errlog
   fdt nofile npipes fork_reply programs targets wait_replies nwaits trace errlog
   pair fd fst snd negb andb orb Nat.eqb Z.of_nat Pos.of_succ_nat Pos.succ].

Ltac tidy_child :=
  rewrite ?pair_at_0, ?pair_at_1, ?pair_at_2,
          ?Win32Facts.insert_0, ?Win32Facts.insert_1, ?Win32Facts.insert_2,
          ?fail_zero;
  change (fail 1) with false; change (fail 2) with false;
  repeat match goal with H : fail _ = _ |- _ => rewrite H end;
  rewrite ?is_free_insert_ne, ?is_free_delete_ne by ne;
  rewrite ?is_free_insert_eq;
  repeat match goal with H : is_free _ _ = _ |- _ => rewrite H end;
  look.

Ltac go_child := repeat progress (crank_child; tidy_child).

Lemma since_app_app {A} (l a b : list A) : since (l ++ a) (l ++ a ++ b) = b.
Proof. rewrite app_assoc. apply since_app. Qed.

(** C5, as the claim states it, fails, at three places.  In a process whose
    descriptor 1 is closed the first pipe takes that number, the child's
    [close(1)] fails and the child leaves without calling [execvp].  When
    [execvp] fails the child ends through [std::exit], so a function the
    parent registered with [atexit] runs in the child.  And a pipe end the
    parent kept from an earlier call is still open in the child when the
    program is replaced. *)
Lemma run_child_is_not_unconditional :
  let echo := ["echo"%string] in
  let no_child (_ : nat) := Failed Linux.ECHILD in
  let no_stdout :=
    World (list_to_map [(0, Inherited 0); (2, Inherited 2)]) 16 0 0 echo []
          no_child 0 [] [] in
  let second_call :=
    World (list_to_map [(0, Inherited 0); (1, Inherited 1); (2, Inherited 2);
                        (3, PipeWrite 0)]) 16 1 0 echo [] no_child 0 [] [] in
  (fst (run [-1; -1; -1] echo no_stdout) = Exited EXIT_FAILURE /\
   trace (snd (run [-1; -1; -1] echo no_stdout)) =
     [SysPipe 1 3; SysPipe 4 5; SysPipe 6 7; SysFork;
      SysClose 0; SysDup2 1 0; SysClose 1; SysClose 3; SysClose 1]) /\
  at_exit ["flush"%string]
    (fst (run [-1; -1; -1] ["nope"%string] (booted 16 0 echo [] no_child)))
  = ["flush"%string] /\
  (fst (run [-1; -1; -1] echo second_call) = Replaced "echo" echo /\
   fdt (snd (run [-1; -1; -1] echo second_call)) !! 3 = Some (PipeWrite 0)).
Proof. vm_compute. repeat split; reflexivity. Qed.

(** C5, amended: in a process whose descriptors 0, 1 and 2 are open and for
    an argument vector that is not empty, after a successful [fork] the
    child closes 0, 1 and 2 in turn and duplicates onto each the pipe end
    meant for it (the read end of the first pipe, the write ends of the
    other two), closes both ends of each of the three pipes of this call,
    and calls [execvp] with the argument vector.  Its table then holds the
    three pipe ends at 0, 1, 2, none of the six descriptors of these pipes,
    and whatever else was open before the call, pipe ends kept from
    earlier calls included.  When [execvp] fails the child reports it and
    ends through [std::exit] with status -1: it does not come back to the
    caller of [run], and the functions registered with [atexit] run. *)
Theorem run_child_rewires (fd : list Z) (front : string) (rest : list string)
    (w : world) (pair : list pipe) (w1 : world) :
  pair_ctor w = (Returned pair, w1) -> existsb pipe_fail pair = false ->
  fork_reply w = 0 -> std_open w ->
  let argv := front :: rest in
  let r := run fd argv w in
  let w' := snd r in
  let p0 := nth_pipe pair 0 in
  let p1 := nth_pipe pair 1 in
  let p2 := nth_pipe pair 2 in
  since (trace w1) (trace w') =
    [SysFork;
     SysClose 0; SysDup2 (fst p0) 0; SysClose (fst p0); SysClose (snd p0);
     SysClose 1; SysDup2 (snd p1) 1; SysClose (fst p1); SysClose (snd p1);
     SysClose 2; SysDup2 (snd p2) 2; SysClose (fst p2); SysClose (snd p2);
     SysExecvp front argv] /\
  fdt w' =
    <[2 := PipeWrite (S (S (npipes w)))]>
      (<[1 := PipeWrite (S (npipes w))]>
         (<[0 := PipeRead (npipes w)]> (fdt w))) /\
  (forall k, k ∈ [fst p0; snd p0; fst p1; snd p1; fst p2; snd p2] ->
     fdt w' !! k = None) /\
  (if bool_decide (front ∈ programs w)
   then fst r = Replaced front argv /\ errlog w' = errlog w
   else fst r = Exited (-1) /\
        since (errlog w) (errlog w') = [Diag Err [AStr "execvp"; AStr front]] /\
        forall registered, at_exit registered (fst r) = rev registered).
Proof.
  destruct w as [t nf np fr pr tg replies n tr lg]. cbv zeta. revert pair w1.
  hold_run. go; repeat (ctor; go).
  all: intros E pair w1 [= <- <-]; revert E; go;
    intros E Hp; try discriminate Hp; clear Hp; revert E.
  intros E -> (S0 & S1 & S2). revert E. cbn [fdt] in S0, S1, S2. go.
  repeat match goal with
         | H : _ !! _ = None |- _ => apply lookup_insert_None in H as [H ?]
         end.
  repeat match goal with
         | H : t !! ?k = None |- _ =>
           pose proof (open_not_free _ _ _ S0 H);
           pose proof (open_not_free _ _ _ S1 H);
           pose proof (open_not_free _ _ _ S2 H);
           revert H
         end.
  intros.
  match goal with H : _ = res |- _ => revert H end.
  go_child.
  destruct (bool_decide (front ∈ pr)); go_child.
  all: intros <-; go_child.
  all: rewrite <- ?app_assoc; cbn [app].
  all: split; [apply (since_app_app tr [_; _; _]) |].
  all: match goal with
       | |- ?T = ?U /\ _ =>
         assert (Hfd : T = U); [| rewrite Hfd; split; [reflexivity |]]
       end.
  1, 3: apply map_eq; intros k.
  1, 2: destruct (decide (k = 0)) as [-> |]; [look; reflexivity |].
  1, 2: destruct (decide (k = 1)) as [-> |]; [look; reflexivity |].
  1, 2: destruct (decide (k = 2)) as [-> |]; [look; reflexivity |].
  1, 2: repeat match goal with
               | H : _ !! ?x = None |- _ =>
                 destruct (decide (k = x)) as [-> |]; [look; congruence |];
                 revert H
               end.
  1, 2: intros; look; reflexivity.
  all: split;
    [ intros k Hin; pick Hin; subst k; look; assumption
    | repeat split; try reflexivity; apply since_app ].
Qed.

Lemma run_child_rewires_witness :
  fst (run [-1; -1; -1] ["echo"; "hi"]%string
         (booted 16 0 ["echo"%string] [] (fun _ => Failed Linux.ECHILD)))
  = Replaced "echo" ["echo"; "hi"]%string /\
  fst (run [-1; -1; -1] ["nope"]%string
         (booted 16 0 ["echo"%string] [] (fun _ => Failed Linux.ECHILD)))
  = Exited (-1).
Proof.
  assert (E : pair_ctor (booted 16 0 ["echo"%string] [] (fun _ => Failed Linux.ECHILD)) =
              (Returned [(3, 4); (5, 6); (7, 8)],
               snd (pair_ctor
                      (booted 16 0 ["echo"%string] [] (fun _ => Failed Linux.ECHILD)))))
    by (vm_compute; reflexivity).
  assert (S : std_open (booted 16 0 ["echo"%string] [] (fun _ => Failed Linux.ECHILD)))
    by (repeat split; vm_compute; reflexivity).
  split.
  - destruct (run_child_rewires [-1; -1; -1] "echo" ["hi"%string] _ _ _ E
                ltac:(vm_compute; reflexivity) ltac:(vm_compute; reflexivity) S)
      as (_ & _ & _ & H).
    cbv zeta in H. destruct (bool_decide _) eqn:B in H.
    + exact (proj1 H).
    + vm_compute in B. discriminate B.
  - destruct (run_child_rewires [-1; -1; -1] "nope" [] _ _ _ E
                ltac:(vm_compute; reflexivity) ltac:(vm_compute; reflexivity) S)
      as (_ & _ & _ & H).
    cbv zeta in H. destruct (bool_decide _) eqn:B in H.
    + vm_compute in B. discriminate B.
    + exact (proj1 H).
Defined.

End PosixRun.

(** ** The launcher on both platforms *)

Module Launcher.

(** C2: [run] fails atomically.  POSIX: when one of the three pipes could
    not be made, [run] returns the invalid identifier without calling
    [fork]; when the pipes exist and [fork] fails, [run] returns that
    failure; either way the descriptor table is the one the call started
    with, so every pipe end made during the call has been closed.  Win32:
    when a pipe cannot be made [CreateProcess] is not called, when
    [CreateProcess] fails no process exists, and either way [run] returns
    the invalid identifier and no handle is open that was not open
    before. *)
Theorem run_fails_atomically (fd : list Z) (argv : list string)
    (w : Posix.world) (pair : list Posix.pipe) (w1 : Posix.world)
    (w32 : Win32.world) :
  Posix.pair_ctor w = (Returned pair, w1) ->
  (let r := Posix.run fd argv w in
   let w' := snd r in
   let called := since (Posix.trace w) (Posix.trace w') in
   (existsb Posix.pipe_fail pair = true ->
    fst r = Returned (invalid, fd) /\ Posix.fdt w' = Posix.fdt w /\
    (Posix.SysFork ∉ called) /\
    forall path args, Posix.SysExecvp path args ∉ called) /\
   (existsb Posix.pipe_fail pair = false -> fail (Posix.fork_reply w) = true ->
    fst r = Returned (Posix.fork_reply w, fd) /\ Posix.fdt w' = Posix.fdt w /\
    forall path args, Posix.SysExecvp path args ∉ called)) /\
  (let r := Win32.run fd argv w32 in
   let w' := snd r in
   let called := since (Win32.trace w32) (Win32.trace w') in
   (Win32.CreatePipe false ∈ called ->
    fst r = Returned (invalid, fd) /\
    (forall h, Win32.is_open (Win32.handles w') h = true ->
               Win32.is_open (Win32.handles w32) h = true) /\
    forall cmd inherit flags ok,
      Win32.CreateProcess cmd inherit flags ok ∉ called) /\
   (forall cmd inherit flags,
      Win32.CreateProcess cmd inherit flags false ∈ called ->
      fst r = Returned (invalid, fd) /\
      (forall h, Win32.is_open (Win32.handles w') h = true ->
                 Win32.is_open (Win32.handles w32) h = true) /\
      Win32.children w' = Win32.children w32)).
Proof.
  intros Hpair. split.
  - exact (PosixRun.posix_run_fails_atomically fd argv w pair w1 Hpair).
  - exact (Win32Facts.win32_run_fails_atomically fd argv w32).
Qed.

Lemma run_fails_atomically_witness :
  (fst (Posix.run [-1; -1; -1] ["echo"%string]
          (Posix.booted 7 100 [] [] (fun _ => Posix.Failed Linux.ECHILD)))
   = Returned (invalid, [-1; -1; -1]) /\
   Posix.fdt (snd (Posix.run [-1; -1; -1] ["echo"%string]
                     (Posix.booted 7 100 [] [] (fun _ => Posix.Failed Linux.ECHILD))))
   = Posix.fdt (Posix.booted 7 100 [] [] (fun _ => Posix.Failed Linux.ECHILD))) /\
  (fst (Posix.run [-1; -1; -1] ["echo"%string]
          (Posix.booted 16 (-1) [] [] (fun _ => Posix.Failed Linux.ECHILD)))
   = Returned (-1, [-1; -1; -1]) /\
   Posix.fdt (snd (Posix.run [-1; -1; -1] ["echo"%string]
                     (Posix.booted 16 (-1) [] [] (fun _ => Posix.Failed Linux.ECHILD))))
   = Posix.fdt (Posix.booted 16 (-1) [] [] (fun _ => Posix.Failed Linux.ECHILD))) /\
  fst (Win32.run [-1; -1; -1] ["echo"%string] (Win32.booted (fun _ => false) []))
  = Returned (invalid, [-1; -1; -1]).
Proof.
  split; [| split].
  - assert (E : Posix.pair_ctor
                  (Posix.booted 7 100 [] [] (fun _ => Posix.Failed Linux.ECHILD)) =
                (Returned [(3, 4); (5, 6); (invalid, invalid)],
                 snd (Posix.pair_ctor
                        (Posix.booted 7 100 [] [] (fun _ => Posix.Failed Linux.ECHILD)))))
      by (vm_compute; reflexivity).
    destruct (run_fails_atomically [-1; -1; -1] ["echo"%string] _ _ _
                (Win32.booted (fun _ => false) []) E) as [[H _] _].
    destruct H as (Hret & Hfdt & _); [vm_compute; reflexivity |].
    split; assumption.
  - assert (E : Posix.pair_ctor
                  (Posix.booted 16 (-1) [] [] (fun _ => Posix.Failed Linux.ECHILD)) =
                (Returned [(3, 4); (5, 6); (7, 8)],
                 snd (Posix.pair_ctor
                        (Posix.booted 16 (-1) [] [] (fun _ => Posix.Failed Linux.ECHILD)))))
      by (vm_compute; reflexivity).
    destruct (run_fails_atomically [-1; -1; -1] ["echo"%string] _ _ _
                (Win32.booted (fun _ => false) []) E) as [[_ H] _].
    destruct H as (Hret & Hfdt & _); [vm_compute; reflexivity .. |].
    split; assumption.
  - assert (E : Posix.pair_ctor
                  (Posix.booted 16 (-1) [] [] (fun _ => Posix.Failed Linux.ECHILD)) =
                (Returned [(3, 4); (5, 6); (7, 8)],
                 snd (Posix.pair_ctor
                        (Posix.booted 16 (-1) [] [] (fun _ => Posix.Failed Linux.ECHILD)))))
      by (vm_compute; reflexivity).
    destruct (run_fails_atomically [-1; -1; -1] ["echo"%string] _ _ _
                (Win32.booted (fun _ => false) []) E) as [_ [_ H]].
    destruct (H "echo "%string true Win32.DETACHED_PROCESS) as (Hret & _).
    + vm_compute. do 6 apply list_elem_of_further. apply list_elem_of_here.
    + exact Hret.
Defined.

End Launcher.

(** ** Waiting for a process on Win32 *)

Module Win32Waiter.
Import Win32 Win32Facts.

(** Handles opened by a call and closed again leave the table as it was,
    as far as being open goes. *)
Lemma is_open_opened_closed (t : gmap Z hinfo) (h k : Z) (i : hinfo) :
  is_open (delete h (<[h := i]> t)) k = true -> is_open t k = true.
Proof.
  destruct (decide (h = k)) as [<- |].
  - now rewrite is_open_delete_eq.
  - rewrite is_open_delete_ne, is_open_insert_ne by assumption. auto.
Qed.

(** What [wait] does to a process that can be opened. *)
Lemma wait_opened (pid : Z) (w : world) (s : pstate) :
  procs w !! pid = Some s ->
  let h := handle_value (next w) in
  let opened := OpenProcess pid h in
  wait pid w =
  if wait_fails w then
    (Returned (-1),
     with_handles (fun t => delete h (<[h := HInfo (Process pid) false]> t))
       (with_next (Pos.succ (next w))
          (with_errlog
             (errlog w ++ [Diag WinErr [AStr "WaitForSingleObject"; AInt pid]])
             (with_trace
                (trace w ++ [opened; WaitForSingleObject h INFINITE false;
                             CloseHandle h]) w))))
  else if query_fails w then
    (Returned (-1),
     with_handles (fun t => delete h (<[h := HInfo (Process pid) false]> t))
       (with_next (Pos.succ (next w))
          (with_procs (insert pid (Ended (final_code s)))
             (with_errlog
                (errlog w ++ [Diag WinErr [AStr "GetExitCodeProcess"; AInt pid]])
                (with_trace
                   (trace w ++ [opened; WaitForSingleObject h INFINITE true;
                                GetExitCodeProcess h false; CloseHandle h]) w)))))
  else
    (Returned (Int.to_int (Int.to_dword (final_code s))),
     with_handles (fun t => delete h (<[h := HInfo (Process pid) false]> t))
       (with_next (Pos.succ (next w))
          (with_procs (insert pid (Ended (final_code s)))
             (with_trace
                (trace w ++ [opened; WaitForSingleObject h INFINITE true;
                             GetExitCodeProcess h true; CloseHandle h]) w)))).
Proof.
  intros Hs.
  destruct w as [hs nx np pb st sa fa ps npid ch wf qf cr tr lg].
  cbn in Hs. cbv zeta. go. rewrite Hs. go. rewrite Hs.
  destruct wf; go.
  - rewrite <- !app_assoc. reflexivity.
  - destruct s as [f | c]; go.
    + destruct qf; go; rewrite <- !app_assoc; reflexivity.
    + rewrite Hs. destruct qf; go; rewrite <- !app_assoc; cbn [app].
      all: rewrite (insert_id ps pid (Ended c)) by exact Hs; reflexivity.
Qed.


(** What [kill] does, by the state of the process named. *)
Lemma kill_cases (pid : Z) (w : world) :
  let h := handle_value (next w) in
  kill pid w =
  match procs w !! pid with
  | None =>
    (Returned tt,
     with_errlog (errlog w ++ [Diag Warn [AInt pid]])
       (with_trace (trace w ++ [OpenProcess pid 0]) w))
  | Some (Running _) =>
    (Returned tt,
     with_handles (fun t => delete h (<[h := HInfo (Process pid) false]> t))
       (with_next (Pos.succ (next w))
          (with_procs (insert pid (Ended 0))
             (with_trace
                (trace w ++ [OpenProcess pid h; TerminateProcess h 0 true;
                             CloseHandle h]) w))))
  | Some (Ended _) =>
    (Returned tt,
     with_handles (fun t => delete h (<[h := HInfo (Process pid) false]> t))
       (with_next (Pos.succ (next w))
          (with_errlog
             (errlog w ++ [Diag WinErr [AStr "TerminateProcess"; AInt pid]])
             (with_trace
                (trace w ++ [OpenProcess pid h; TerminateProcess h 0 false;
                             CloseHandle h]) w))))
  end.
Proof.
  destruct w as [hs nx np pb st sa fa ps npid ch wf qf cr tr lg].
  cbv zeta. go. destruct (ps !! pid) as [[f | c] |] eqn:Hs; go.
  - rewrite Hs. go. rewrite <- !app_assoc. reflexivity.
  - rewrite Hs. go. rewrite <- !app_assoc. reflexivity.
  - reflexivity.
Qed.

(** X1: [wait] on a process that exists hands back its exit code, converted
    from [DWORD] to [int], once the process has ended; it calls
    [OpenProcess], [WaitForSingleObject] with no time limit,
    [GetExitCodeProcess] and [CloseHandle], writes no diagnostic and leaves
    no handle open. *)
Theorem wait_reports_exit_code (pid : Z) (w : world) (s : pstate) :
  procs w !! pid = Some s -> wait_fails w = false -> query_fails w = false ->
  let r := wait pid w in
  let w' := snd r in
  let h := handle_value (next w) in
  fst r = Returned (Int.to_int (Int.to_dword (final_code s))) /\
  procs w' !! pid = Some (Ended (final_code s)) /\
  since (trace w) (trace w') =
    [OpenProcess pid h; WaitForSingleObject h INFINITE true;
     GetExitCodeProcess h true; CloseHandle h] /\
  errlog w' = errlog w /\
  forall k, is_open (handles w') k = true -> is_open (handles w) k = true.
Proof.
  intros Hs Hwf Hqf. cbv zeta. rewrite (wait_opened pid w s Hs), Hwf, Hqf.
  destruct w as [hs nx np pb st sa fa ps npid ch wf qf cr tr lg].
  cbn -[since Int.to_int Int.to_dword].
  rewrite lookup_insert_eq, since_app. repeat split.
  intros k. apply is_open_opened_closed.
Qed.

Lemma wait_reports_exit_code_witness :
  fst (wait 7 (booted (fun _ => true) [(7, Running 3)])) = Returned 3.
Proof.
  exact (proj1 (wait_reports_exit_code 7 (booted (fun _ => true) [(7, Running 3)])
                  (Running 3) eq_refl eq_refl eq_refl)).
Defined.

(** X2: the conversions of the exit code in [wait]: a code below 2^31 comes back
    as it is, a code from 2^31 on comes back negative, lowered by 2^32. *)
Theorem wait_exit_code_as_int (pid : Z) (w : world) (s : pstate) :
  procs w !! pid = Some s -> wait_fails w = false -> query_fails w = false ->
  0 <= final_code s < 2 ^ 32 ->
  fst (wait pid w) =
    Returned (if final_code s <? 2 ^ 31 then final_code s
              else final_code s - 2 ^ 32).
Proof.
  intros Hs Hwf Hqf Hc. rewrite (wait_opened pid w s Hs), Hwf, Hqf. cbn [fst].
  f_equal. unfold Int.to_int, Int.to_dword.
  rewrite (Z.mod_small (final_code s)) by lia.
  destruct (Z.ltb_spec (final_code s) (2 ^ 31)).
  - rewrite <- (Z.mod_unique (final_code s + 2 ^ 31) (2 ^ 32) 0 (final_code s + 2 ^ 31)); lia.
  - rewrite <- (Z.mod_unique (final_code s + 2 ^ 31) (2 ^ 32) 1 (final_code s - 2 ^ 31)); lia.
Qed.

Lemma wait_exit_code_as_int_witness :
  fst (wait 7 (booted (fun _ => true) [(7, Ended 0xC0000005)]))
  = Returned (0xC0000005 - 2 ^ 32).
Proof.
  exact (wait_exit_code_as_int 7 (booted (fun _ => true) [(7, Ended 0xC0000005)])
           (Ended 0xC0000005) eq_refl eq_refl eq_refl
           ltac:(vm_compute; split; [discriminate | reflexivity])).
Defined.


(** X3: when [WaitForSingleObject] fails, [wait] does not ask for the exit code:
    it writes one diagnostic, closes the handle and returns -1.  When the
    wait succeeds and [GetExitCodeProcess] fails, it does the same after
    the process has ended. *)
Theorem wait_failure_paths (pid : Z) (w : world) (s : pstate) :
  procs w !! pid = Some s -> wait_fails w = true \/ query_fails w = true ->
  let r := wait pid w in
  let w' := snd r in
  let h := handle_value (next w) in
  fst r = Returned (-1) /\
  since (errlog w) (errlog w') =
    [Diag WinErr [AStr (if wait_fails w then "WaitForSingleObject"
                        else "GetExitCodeProcess"); AInt pid]] /\
  since (trace w) (trace w') =
    (if wait_fails w
     then [OpenProcess pid h; WaitForSingleObject h INFINITE false; CloseHandle h]
     else [OpenProcess pid h; WaitForSingleObject h INFINITE true;
           GetExitCodeProcess h false; CloseHandle h]) /\
  forall k, is_open (handles w') k = true -> is_open (handles w) k = true.
Proof.
  intros Hs Hfail. cbv zeta. rewrite (wait_opened pid w s Hs).
  destruct w as [hs nx np pb st sa fa ps npid ch wf qf cr tr lg].
  cbn [wait_fails query_fails] in *.
  destruct wf; [| destruct qf; [| destruct Hfail; discriminate]].
  all: cbn -[since]; rewrite !since_app; repeat split.
  all: intros k; apply is_open_opened_closed.
Qed.

Lemma wait_failure_paths_witness :
  fst (wait 7 (World ∅ 1 0 3 (fun _ => false) (fun _ => true) (fun _ => 0)
                 (list_to_map [(7, Running 3)]) 100 [] true false [] [] []))
  = Returned (-1).
Proof.
  exact (proj1 (wait_failure_paths 7
                  (World ∅ 1 0 3 (fun _ => false) (fun _ => true) (fun _ => 0)
                     (list_to_map [(7, Running 3)]) 100 [] true false [] [] [])
                  (Running 3) eq_refl (or_introl eq_refl))).
Defined.

(** X4: [kill] followed by [wait]: a process that was running is then reported
    with exit code 0, whatever code it would have ended with by itself. *)
Theorem kill_then_wait (pid : Z) (w : world) (fate : Z) :
  procs w !! pid = Some (Running fate) ->
  wait_fails w = false -> query_fails w = false ->
  fst ((kill pid ;;; wait pid) w) = Returned 0.
Proof.
  intros Hs Hwf Hqf. unfold bind at 1.
  pose proof (kill_cases pid w) as Hk. cbv zeta in Hk. rewrite Hs in Hk.
  rewrite Hk.
  match goal with |- fst (wait pid ?w1) = _ =>
    rewrite (wait_opened pid w1 (Ended 0))
  end.
  - destruct w; cbn in *. now rewrite Hwf, Hqf.
  - destruct w; cbn. apply lookup_insert_eq.
Qed.

Lemma kill_then_wait_witness :
  fst ((kill 7 ;;; wait 7) (booted (fun _ => true) [(7, Running 3)])) = Returned 0.
Proof.
  exact (kill_then_wait 7 (booted (fun _ => true) [(7, Running 3)]) 3
           eq_refl eq_refl eq_refl).
Defined.

(** X5: [kill] touches one process at most: every other process keeps its
    state, a process that has already ended keeps its exit code, and no
    handle is left open. *)
Theorem kill_spares_the_rest (pid : Z) (w : world) :
  let w' := snd (kill pid w) in
  (forall q, q <> pid -> procs w' !! q = procs w !! q) /\
  (forall code, procs w !! pid = Some (Ended code) ->
                procs w' !! pid = Some (Ended code)) /\
  (procs w !! pid = None -> procs w' !! pid = None) /\
  forall k, is_open (handles w') k = true -> is_open (handles w) k = true.
Proof.
  pose proof (kill_cases pid w) as Hk. cbv zeta in *. rewrite Hk. clear Hk.
  destruct w as [hs nx np pb st sa fa ps npid ch wf qf cr tr lg]. cbn.
  destruct (ps !! pid) as [[f | c] |] eqn:Hs; cbn.
  - split; [| split; [| split]]; try discriminate.
    + intros q Hq. now rewrite lookup_insert_ne.
    + intros k. apply is_open_opened_closed.
  - split; [| split; [| split]]; try discriminate; auto.
    + intros code [= <-]. exact Hs.
    + intros k. apply is_open_opened_closed.
  - split; [| split; [| split]]; try discriminate; auto.
Qed.

End Win32Waiter.

(** ** The command line buffer *)

Module CommandLineFacts.
Import Win32 CommandLine.

Lemma chars_app (a b : string) :
  list_ascii_of_string (a ++ b) = list_ascii_of_string a ++ list_ascii_of_string b.
Proof.
  induction a as [| c a IH]; [reflexivity |].
  cbn [list_ascii_of_string app]. rewrite <- IH. reflexivity.
Qed.

Lemma chars_length (a : string) :
  length (list_ascii_of_string a) = String.length a.
Proof. induction a as [| c a IH]; cbn; [reflexivity | f_equal; exact IH]. Qed.

Lemma slot_length (a : string) : length (slot a) = (String.length a + 2)%nat.
Proof.
  unfold slot. rewrite length_app, chars_app, length_app, chars_length. cbn. lia.
Qed.

Lemma to_size_t_small (z : Z) : 0 <= z < 2 ^ 64 -> Int.to_size_t z = z.
Proof. intros H. unfold Int.to_size_t. now apply Z.mod_small. Qed.

Lemma drop_repeat {A} (x : A) (k m : nat) : drop k (repeat x m) = repeat x (m - k).
Proof.
  revert k. induction m as [| m IH]; intros [| k]; cbn; try reflexivity. apply IH.
Qed.

(** Storing at the end of what is already written. *)
Lemma store_at_end (pre bytes : list ascii) (m : nat) :
  store (pre ++ repeat NUL m) (length pre) bytes =
  pre ++ bytes ++ repeat NUL (m - length bytes).
Proof.
  unfold store. rewrite take_app_length, drop_app_add, drop_repeat. reflexivity.
Qed.

(** One turn of the loop when the slot fits. *)
Lemma snprintf_fits (pre : list ascii) (m : nat) (a : string) :
  (length (slot a) <= m)%nat -> Z.of_nat (length pre + m) = MAX_PATH ->
  snprintf (pre ++ repeat NUL m) (Z.of_nat (length pre))
           (Int.to_size_t (MAX_PATH - Z.of_nat (length pre))) a =
  Some (pre ++ slot a ++ repeat NUL (m - length (slot a)),
        Z.of_nat (String.length a) + 1).
Proof.
  intros Hfit Hlen. pose proof (slot_length a) as Hs. unfold MAX_PATH in *.
  rewrite to_size_t_small by lia.
  unfold snprintf. cbv zeta.
  assert (Hn : Z.of_nat (length (list_ascii_of_string (a ++ " "))) =
               Z.of_nat (String.length a) + 1).
  { rewrite chars_app, length_app, chars_length. cbn. lia. }
  rewrite Hn.
  destruct (Z.eqb_spec (260 - Z.of_nat (length pre)) 0) as [E | _]; [lia |].
  rewrite Z.min_l by lia.
  destruct (Z.leb_spec (Z.of_nat (String.length a) + 1) INT_MAX) as [_ | E];
    [| unfold INT_MAX in E; lia].
  rewrite length_app, repeat_length.
  destruct (Z.leb_spec (Z.of_nat (length pre) + (Z.of_nat (String.length a) + 1) + 1)
                       (Z.of_nat (length pre + m))) as [_ | E]; [| lia].
  rewrite Nat2Z.id. f_equal. f_equal.
  rewrite take_ge by (rewrite chars_app, length_app, chars_length; cbn; lia).
  fold (slot a). apply store_at_end.
Qed.

Lemma format_cmd_from (argv : list string) :
  forall (pre : list ascii) (m : nat),
  (length (laid_out argv) <= m)%nat -> Z.of_nat (length pre + m) = MAX_PATH ->
  format_cmd argv (Z.of_nat (length pre)) (pre ++ repeat NUL m) =
  Formatted (pre ++ laid_out argv ++ repeat NUL (m - length (laid_out argv))).
Proof.
  induction argv as [| a argv IH]; intros pre m Hfit Hlen.
  - cbn. now rewrite Nat.sub_0_r.
  - unfold laid_out in Hfit. cbn [map concat] in Hfit. rewrite length_app in Hfit.
    fold (laid_out argv) in Hfit.
    cbn [format_cmd]. rewrite snprintf_fits by (assumption || lia).
    pose proof (slot_length a) as Hs. unfold MAX_PATH in Hlen.
    destruct (Z.ltb_spec 0 (Z.of_nat (String.length a) + 1)) as [_ | E]; [| lia].
    rewrite (to_size_t_small (Z.of_nat (length pre) + _)) by lia.
    rewrite to_size_t_small by lia.
    replace (Z.of_nat (length pre) + (Z.of_nat (String.length a) + 1) + 1)
      with (Z.of_nat (length (pre ++ slot a)))
      by (rewrite length_app, Hs; lia).
    rewrite app_assoc. rewrite IH.
    + unfold laid_out. cbn [map concat]. rewrite <- !app_assoc, length_app.
      rewrite Nat.sub_add_distr. reflexivity.
    + lia.
    + rewrite length_app. unfold MAX_PATH. lia.
Qed.

(** X6: as long as the slots of all arguments fit in the buffer, the loop stores
    each argument followed by a space and a terminator, one slot after the
    other, and leaves the rest of the buffer zero. *)
Theorem format_cmd_layout (argv : list string) :
  Z.of_nat (length (laid_out argv)) <= MAX_PATH ->
  format_cmd argv 0 zeroed =
  Formatted (laid_out argv ++
             repeat NUL (Z.to_nat MAX_PATH - length (laid_out argv))).
Proof.
  intros Hfit.
  apply (format_cmd_from argv [] (Z.to_nat MAX_PATH)); unfold MAX_PATH in *;
    cbn [length]; lia.
Qed.

Lemma format_cmd_layout_witness :
  format_cmd ["ls"; "-l"]%string 0 zeroed =
  Formatted (laid_out ["ls"; "-l"]%string ++
             repeat NUL (Z.to_nat MAX_PATH - length (laid_out ["ls"; "-l"]%string))).
Proof.
  apply (format_cmd_layout ["ls"; "-l"]%string). vm_compute. discriminate.
Defined.


(** The text a buffer denotes ends at the first terminator. *)
Lemma c_str_terminated (a : string) (rest : list ascii) :
  c_string a -> c_str (list_ascii_of_string a ++ NUL :: rest) = a.
Proof.
  unfold c_string. induction a as [| c a IH]; intros Hc; [reflexivity |].
  cbn [list_ascii_of_string] in *. apply Forall_cons in Hc as [Hne Hc].
  cbn. destruct (Ascii.eqb_spec c NUL) as [-> | _]; [contradiction |].
  f_equal. now apply IH.
Qed.

(** X7: the command line [CreateProcess] is given is the first argument followed
    by one space: the arguments after it lie behind its terminator. *)
Theorem command_line_is_first_argument (a : string) (rest : list string) :
  c_string a -> Z.of_nat (length (laid_out (a :: rest))) <= MAX_PATH ->
  exists cmd,
    format_cmd (a :: rest) 0 zeroed = Formatted cmd /\
    c_str cmd = (a ++ " ")%string.
Proof.
  intros Hc Hfit. eexists. split.
  { apply (format_cmd_from (a :: rest) [] (Z.to_nat MAX_PATH));
      unfold MAX_PATH in *; cbn [length]; lia. }
  unfold laid_out. cbn [map concat]. unfold slot at 1. rewrite <- !app_assoc.
  apply c_str_terminated. unfold c_string. rewrite chars_app.
  apply Forall_app. split; [exact Hc |]. repeat constructor. discriminate.
Qed.

Lemma command_line_is_first_argument_witness :
  exists cmd,
    format_cmd ["ls"; "-l"; "/tmp"]%string 0 zeroed = Formatted cmd /\
    c_str cmd = "ls "%string.
Proof.
  apply (command_line_is_first_argument "ls" ["-l"; "/tmp"]%string).
  - repeat constructor; discriminate.
  - vm_compute. discriminate.
Defined.

(** X8: a single argument that does not fit is cut to [MAX_PATH - 1] characters
    without any failure. *)
Theorem format_cmd_truncates (a : string) :
  MAX_PATH - 1 <= Z.of_nat (String.length a) -> countable a ->
  format_cmd [a] 0 zeroed =
  Formatted (take (Z.to_nat (MAX_PATH - 1)) (list_ascii_of_string a) ++ [NUL]).
Proof.
  unfold countable, MAX_PATH, INT_MAX, zeroed. intros Hlong Hcount.
  cbn [format_cmd]. unfold snprintf. cbv zeta. unfold MAX_PATH, INT_MAX.
  rewrite chars_app, length_app, chars_length, repeat_length.
  change (length (list_ascii_of_string " ")) with 1%nat.
  change (Int.to_size_t (260 - 0)) with 260.
  change (260 =? 0) with false. cbv iota.
  rewrite Z.min_r by lia. change (260 - 1) with 259.
  change (0 + 259 + 1 <=? Z.of_nat (Z.to_nat 260)) with true. cbv iota.
  destruct (Z.leb_spec (Z.of_nat (String.length a + 1)) (2 ^ 31 - 1)) as [_ | E];
    [| lia].
  destruct (Z.ltb_spec 0 (Z.of_nat (String.length a + 1))) as [_ | E]; [| lia].
  f_equal. rewrite take_app_le by (rewrite chars_length; lia).
  unfold store. cbn [take app Z.to_nat].
  rewrite drop_repeat, length_app, length_take, chars_length. cbn [length].
  replace (Z.to_nat 260 - _)%nat with 0%nat by lia. cbn [repeat].
  now rewrite app_nil_r.
Qed.

Lemma format_cmd_truncates_witness :
  format_cmd [String.concat "" (repeat "0123456789"%string 30)] 0 zeroed =
  Formatted (take 259 (list_ascii_of_string
                         (String.concat "" (repeat "0123456789"%string 30))) ++ [NUL]).
Proof.
  apply (format_cmd_truncates (String.concat "" (repeat "0123456789"%string 30))).
  - vm_compute. discriminate.
  - vm_compute. discriminate.
Defined.


(** [snprintf] reports a positive length for every argument it can count. *)
Lemma snprintf_positive (buf : list ascii) (off size : Z) (a : string)
    (cmd : list ascii) (n : Z) :
  countable a -> snprintf buf off size a = Some (cmd, n) -> 0 < n.
Proof.
  unfold countable, snprintf. cbv zeta.
  rewrite chars_app, length_app, chars_length.
  change (length (list_ascii_of_string " ")) with 1%nat.
  intros Hc H.
  destruct (Z.leb_spec (Z.of_nat (String.length a + 1)) INT_MAX) as [_ | E];
    [| lia].
  destruct (size =? 0); [injection H as _ <-; lia |].
  destruct (_ <=? _); [injection H as _ <-; lia | discriminate].
Qed.

(** X9: the [return -1] of the formatting loop is never taken: whatever the
    arguments and however long the command line, the loop does not report a
    failure. *)
Theorem format_cmd_never_fails (argv : list string) :
  forall (j : Z) (cmd : list ascii),
  Forall countable argv -> format_cmd argv j cmd <> FormatError.
Proof.
  induction argv as [| a argv IH]; intros j cmd Hc; [discriminate |].
  apply Forall_cons in Hc as [Ha Hc]. cbn [format_cmd].
  destruct (snprintf cmd j _ a) as [[cmd' n] |] eqn:E; [| discriminate].
  apply snprintf_positive in E; [| exact Ha].
  destruct (Z.ltb_spec 0 n) as [_ | E']; [| lia]. now apply IH.
Qed.

Lemma format_cmd_never_fails_witness :
  format_cmd ["ls"; "-l"]%string 0 zeroed <> FormatError.
Proof.
  apply (format_cmd_never_fails ["ls"; "-l"]%string 0 zeroed).
  repeat constructor; vm_compute; discriminate.
Defined.

(** X10: after an argument that fills the buffer, the next argument is written
    outside it: the index has passed the end and the size left, an unsigned
    difference, wraps around. *)
Theorem format_cmd_overruns (a b : string) (rest : list string) :
  MAX_PATH - 1 <= Z.of_nat (String.length a) -> countable a ->
  format_cmd (a :: b :: rest) 0 zeroed = Overrun.
Proof.
  unfold countable, zeroed. intros Hlong Hcount.
  cbn [format_cmd].
  destruct (snprintf (repeat NUL (Z.to_nat MAX_PATH)) 0 _ a) as [[cmd n] |] eqn:E;
    [| reflexivity].
  assert (Hn : n = Z.of_nat (String.length a) + 1 /\ length cmd = Z.to_nat MAX_PATH).
  { revert E. unfold snprintf. cbv zeta. unfold MAX_PATH, INT_MAX in *.
    rewrite chars_app, length_app, chars_length, repeat_length.
    change (length (list_ascii_of_string " ")) with 1%nat.
    change (Int.to_size_t (260 - 0)) with 260.
    change (260 =? 0) with false. cbv iota.
    rewrite Z.min_r by lia. change (260 - 1) with 259.
    change (0 + 259 + 1 <=? Z.of_nat (Z.to_nat 260)) with true. cbv iota.
    destruct (Z.leb_spec (Z.of_nat (String.length a + 1)) (2 ^ 31 - 1)) as [_ | E'];
      [| lia].
    intros [= <- <-]. split; [lia |].
    unfold store.
    rewrite ?length_app, ?length_take, ?length_drop, ?length_app, ?repeat_length,
      ?chars_length.
    cbn [length list_ascii_of_string]. lia. }
  destruct Hn as [-> Hlen]. unfold MAX_PATH, INT_MAX in *.
  destruct (Z.ltb_spec 0 (Z.of_nat (String.length a) + 1)) as [_ | E']; [| lia].
  rewrite (to_size_t_small (0 + _)) by lia.
  rewrite (to_size_t_small (_ + 1)) by lia.
  unfold snprintf. cbv zeta. rewrite Hlen.
  set (size := Int.to_size_t _).
  assert (Hsize : 2 <= size).
  { subst size. unfold Int.to_size_t.
    rewrite <- (Z.mod_unique _ (2 ^ 64) (-1)
                  (2 ^ 64 + (260 - (0 + (Z.of_nat (String.length a) + 1) + 1))));
      lia. }
  destruct (Z.eqb_spec size 0) as [E0 | _]; [lia |].
  destruct (Z.leb_spec
              (0 + (Z.of_nat (String.length a) + 1) + 1 +
               Z.of_nat (length (list_ascii_of_string (b ++ " "))) `min` (size - 1) + 1)
              (Z.of_nat (Z.to_nat 260))) as [E1 | _]; [| reflexivity].
  rewrite chars_app, length_app in E1. cbn [length list_ascii_of_string] in E1. lia.
Qed.

Lemma format_cmd_overruns_witness :
  format_cmd [String.concat "" (repeat "0123456789"%string 30); "x"%string] 0 zeroed
  = Overrun.
Proof.
  apply (format_cmd_overruns (String.concat "" (repeat "0123456789"%string 30))).
  - vm_compute. discriminate.
  - vm_compute. discriminate.
Defined.

End CommandLineFacts.

(** ** A child started on Win32 *)

Module Win32Launch.
Import Win32 Win32Facts.

(** A handle the call made and did not close. *)
Ltac opened :=
  rewrite ?is_open_delete_ne by hv; rewrite ?is_open_insert_ne by hv;
  rewrite ?is_open_alter; rewrite ?is_open_insert_ne by hv;
  rewrite ?is_open_insert_eq; reflexivity.

(** A handle whose inheritance flag the call cleared. *)
Ltac cleared :=
  let i := fresh "i" in
  let Hl := fresh "Hl" in
  let Hflag := fresh "Hflag" in
  rewrite elem_of_inheritable_handles; intros (i & Hl & Hflag);
  revert Hl; look; cbn; intros [= <-]; discriminate Hflag.

(** X11: when the three pipes can be made and marked, the command line fits and
    the process can be created, [run] returns its identifier and stores in
    [fd] three new descriptors, opened in turn on the write end of the first
    pipe and the read ends of the other two.  The child was given the other
    three ends as its standard handles and inherits them; the parent has
    closed these three and the thread handle, and keeps its own three ends
    open and out of inheritance. *)
Theorem run_starts_child (fd : list Z) (argv : list string) (w : world)
    (cmd : list ascii) (budget : nat) :
  let n1 := Pos.succ (next w) in
  let n2 := Pos.succ n1 in
  let n3 := Pos.succ n2 in
  let n4 := Pos.succ n3 in
  let n5 := Pos.succ n4 in
  let n7 := Pos.succ (Pos.succ n5) in
  let stdin_r := handle_value (next w) in
  let stdin_w := handle_value n1 in
  let stdout_r := handle_value n2 in
  let stdout_w := handle_value n3 in
  let stderr_r := handle_value n4 in
  let stderr_w := handle_value n5 in
  pipe_budget w = S (S (S budget)) ->
  sticky w stdin_w = false -> sticky w stdout_r = false ->
  sticky w stderr_r = false ->
  format_cmd argv 0 (repeat NUL (Z.to_nat MAX_PATH)) = Formatted cmd ->
  startable w (c_str cmd) = true ->
  let r := run fd argv w in
  let w' := snd r in
  let n := Z.of_nat (length (crt w)) in
  fst r = Returned (Int.to_int (next_pid w),
                    <[2%nat := 3 + (n + 2)]>
                      (<[1%nat := 3 + (n + 1)]> (<[0%nat := 3 + n]> fd))) /\
  crt w' = crt w ++ [(stdin_w, O_WRONLY); (stdout_r, O_RDONLY); (stderr_r, O_RDONLY)] /\
  (exists c,
     children w' = children w ++ [c] /\
     child_pid c = next_pid w /\ cmdline c = c_str cmd /\
     std c = [stdin_r; stdout_w; stderr_w] /\
     (stdin_r ∈ inherited c) /\ (stdout_w ∈ inherited c) /\
     (stderr_w ∈ inherited c)) /\
  procs w' !! next_pid w = Some (Running (fate w (c_str cmd))) /\
  is_open (handles w') stdin_r = false /\
  is_open (handles w') stdout_w = false /\
  is_open (handles w') stderr_w = false /\
  is_open (handles w') (handle_value n7) = false /\
  is_open (handles w') stdin_w = true /\
  is_open (handles w') stdout_r = true /\
  is_open (handles w') stderr_r = true /\
  (stdin_w ∉ inheritable_handles (handles w')) /\
  (stdout_r ∉ inheritable_handles (handles w')) /\
  (stderr_r ∉ inheritable_handles (handles w')).
Proof.
  destruct w as [hs nx np pb st sa fa ps npid ch wf qf cr tr lg].
  cbv zeta. cbn [pipe_budget sticky startable next].
  intros -> S1 S2 S4 Hfmt Hstart.
  hold_run. go. rewrite S1. go. rewrite S2. go. rewrite S4. go.
  rewrite Hfmt. go. rewrite Hstart. go. intros <-. go.
  repeat split.
  - do 2 f_equal. rewrite !length_app. cbn [length]. do 2 f_equal; lia.
  - rewrite <- !app_assoc. reflexivity.
  - eexists. split; [reflexivity |]. cbn [child_pid cmdline std inherited].
    repeat split.
    all: apply elem_of_inheritable_handles; look; eexists; split; [reflexivity |];
      reflexivity.
  - rewrite ?is_open_delete_ne by hv. apply is_open_delete_eq.
  - rewrite ?is_open_delete_ne by hv. apply is_open_delete_eq.
  - rewrite ?is_open_delete_ne by hv. apply is_open_delete_eq.
  - rewrite ?is_open_delete_ne by hv. apply is_open_delete_eq.
  - opened.
  - opened.
  - opened.
  - cleared.
  - cleared.
  - cleared.
Qed.

Lemma run_starts_child_witness :
  fst (run [-1; -1; -1] ["a"%string] (booted (fun _ => true) [])) =
  Returned (100, [3; 4; 5]).
Proof.
  assert (Hb : pipe_budget (booted (fun _ => true) []) = 3%nat)
    by (vm_compute; reflexivity).
  assert (Hs : forall h, sticky (booted (fun _ => true) []) h = false)
    by reflexivity.
  assert (Hc : forall c, startable (booted (fun _ => true) []) c = true)
    by reflexivity.
  destruct (run_starts_child [-1; -1; -1] ["a"%string]
              (booted (fun _ => true) []) _ 0 Hb (Hs _) (Hs _) (Hs _)
              ltac:(vm_compute; reflexivity) (Hc _)) as [H _].
  rewrite H. vm_compute. reflexivity.
Defined.

(** X12: when the formatting loop runs past the end of the command-line buffer,
    what [run] does is not defined; in particular no diagnostic tells of it,
    and no process has been started by then. *)
Theorem run_overrun_is_undefined (fd : list Z) (argv : list string) (w : world)
    (budget : nat) :
  let n1 := Pos.succ (next w) in
  let n2 := Pos.succ n1 in
  let n4 := Pos.succ (Pos.succ n2) in
  pipe_budget w = S (S (S budget)) ->
  sticky w (handle_value n1) = false -> sticky w (handle_value n2) = false ->
  sticky w (handle_value n4) = false ->
  format_cmd argv 0 (repeat NUL (Z.to_nat MAX_PATH)) = Overrun ->
  let r := run fd argv w in
  let w' := snd r in
  fst r = Undefined /\
  children w' = children w /\ errlog w' = errlog w /\
  forall cmd inherit flags ok,
    CreateProcess cmd inherit flags ok ∉ since (trace w) (trace w').
Proof.
  destruct w as [hs nx np pb st sa fa ps npid ch wf qf cr tr lg].
  cbv zeta. cbn [pipe_budget sticky startable next].
  intros -> S1 S2 S4 Hfmt.
  hold_run. go. rewrite S1. go. rewrite S2. go. rewrite S4. go.
  rewrite Hfmt. go. intros <-. go. calls.
  repeat split. intros cmd inherit flags ok Hin. pick Hin.
Qed.

Lemma run_overrun_is_undefined_witness :
  fst (run [-1; -1; -1]
         [string_of_list_ascii (repeat "a"%char 259); "b"%string]
         (booted (fun _ => true) [])) = Undefined.
Proof.
  assert (Hb : pipe_budget (booted (fun _ => true) []) = 3%nat)
    by (vm_compute; reflexivity).
  assert (Hs : forall h, sticky (booted (fun _ => true) []) h = false)
    by reflexivity.
  destruct (run_overrun_is_undefined [-1; -1; -1]
              [string_of_list_ascii (repeat "a"%char 259); "b"%string]
              (booted (fun _ => true) []) 0 Hb (Hs _) (Hs _) (Hs _)
              ltac:(vm_compute; reflexivity)) as [H _].
  exact H.
Defined.

End Win32Launch.

(** ** The parent and the child after [fork] *)

Module PosixLaunch.
Import Posix PosixRun.

(** X13: in the parent, after a [fork] that succeeded, [run] returns the
    identifier of the child and stores in [fd] the write end of the first
    pipe and the read ends of the other two.  On return it has closed the
    three other ends, last pipe first, and nothing else: the descriptor
    table holds what it held plus the three ends handed out, and no
    diagnostic was written. *)
Theorem run_parent_keeps_ends (fd : list Z) (argv : list string) (w : world)
    (pair : list pipe) (w1 : world) :
  pair_ctor w = (Returned pair, w1) -> existsb pipe_fail pair = false ->
  fork_reply w <> 0 -> fail (fork_reply w) = false ->
  let r := run fd argv w in
  let w' := snd r in
  let p0 := nth_pipe pair 0 in
  let p1 := nth_pipe pair 1 in
  let p2 := nth_pipe pair 2 in
  fst r = Returned (fork_reply w,
                    <[2%nat := fst p2]> (<[1%nat := fst p1]> (<[0%nat := snd p0]> fd))) /\
  since (trace w1) (trace w') =
    [SysFork; SysClose (snd p2); SysClose (snd p1); SysClose (fst p0)] /\
  fdt w' = <[fst p2 := PipeRead (S (S (npipes w)))]>
             (<[fst p1 := PipeRead (S (npipes w))]>
                (<[snd p0 := PipeWrite (npipes w)]> (fdt w))) /\
  errlog w' = errlog w.
Proof.
  destruct w as [t nf np fr pr tg replies n tr lg]. cbv zeta. revert pair w1.
  hold_run. go; repeat (ctor; go).
  all: intros E pair w1 [= <- <-]; revert E; go;
    intros E Hp; try discriminate Hp; clear Hp; revert E.
  cbn [fork_reply]. intros E Hnz Hok. apply Z.eqb_neq in Hnz. revert E. go.
  repeat match goal with
         | H : _ !! _ = None |- _ => apply lookup_insert_None in H as [H ?]
         end.
  repeat progress
    (rewrite ?is_free_delete_ne by ne; rewrite ?is_free_insert_ne by ne;
     rewrite ?is_free_insert_eq; go).
  intros <-. go. calls.
  split; [reflexivity |].
  split; [apply (since_app_app tr [_; _; _]) |].
  split; [| reflexivity].
  apply map_eq; intros k.
  destruct (decide (k = r)) as [-> |]; [look; congruence |].
  destruct (decide (k = wr0)) as [-> |]; [look; congruence |].
  destruct (decide (k = r1)) as [-> |]; [look; reflexivity |].
  destruct (decide (k = r0)) as [-> |]; [look; reflexivity |].
  destruct (decide (k = wr)) as [-> |]; [look; reflexivity |].
  look. reflexivity.
Qed.

Lemma run_parent_keeps_ends_witness :
  fst (run [-1; -1; -1] ["echo"%string]
         (booted 16 42 ["echo"%string] [] (fun _ => Failed Linux.ECHILD))) =
  Returned (42, [4; 5; 7]).
Proof.
  assert (E : pair_ctor (booted 16 42 ["echo"%string] [] (fun _ => Failed Linux.ECHILD)) =
              (Returned [(3, 4); (5, 6); (7, 8)],
               snd (pair_ctor
                      (booted 16 42 ["echo"%string] [] (fun _ => Failed Linux.ECHILD)))))
    by (vm_compute; reflexivity).
  destruct (run_parent_keeps_ends [-1; -1; -1] ["echo"%string] _ _ _ E
              ltac:(vm_compute; reflexivity) ltac:(vm_compute; discriminate)
              ltac:(vm_compute; reflexivity)) as [H _].
  rewrite H. vm_compute. reflexivity.
Defined.

(** The first unused descriptor found has only used ones below it. *)
Lemma find_seq_least (t : gmap Z file) (len start : nat) (r : Z) :
  find (is_free t) (map Z.of_nat (seq start len)) = Some r ->
  forall k, Z.of_nat start <= k < r -> is_free t k = false.
Proof.
  revert start. induction len as [| len IH]; intros start; cbn [seq map find].
  - discriminate.
  - destruct (is_free t (Z.of_nat start)) eqn:F.
    + intros [= <-] k Hk. lia.
    + intros Hfind k Hk. destruct (decide (k = Z.of_nat start)) as [-> |].
      * exact F.
      * apply (IH (S start) Hfind). lia.
Qed.

(** [pipe] takes the lowest descriptor not in use for the read end. *)
Lemma pipe_ctor_least (w : world) :
  pipe_ctor w =
    (Returned (invalid, invalid),
     with_errlog (errlog w ++ [Diag Err [AStr "pipe"]])
       (with_trace (trace w ++ [SysPipe invalid invalid]) w)) \/
  exists r wr,
    (0 <= r /\ forall k, 0 <= k < r -> is_free (fdt w) k = false) /\
    fail r = false /\ fail wr = false /\
    fdt w !! r = None /\ <[r := PipeRead (npipes w)]> (fdt w) !! wr = None /\
    pipe_ctor w =
      (Returned (r, wr),
       with_npipes (S (npipes w))
         (with_fdt (fun _ => <[wr := PipeWrite (npipes w)]>
                               (<[r := PipeRead (npipes w)]> (fdt w)))
            (with_trace (trace w ++ [SysPipe r wr]) w))).
Proof.
  destruct w as [t nf np fr pr tg replies n tr lg].
  unfold pipe_ctor, sys_pipe, emit, err, bind, modify, gets, ret.
  cbn -[lowest_free].
  destruct (lowest_free t nf) as [r |] eqn:Er; [| left; reflexivity].
  destruct (lowest_free (<[r := PipeRead np]> t) nf) as [wr |] eqn:Ew;
    [| left; reflexivity].
  right. exists r, wr.
  pose proof (find_seq_least t nf 0 r Er) as Hleast.
  apply lowest_free_Some in Er as [Fr Pr]. apply lowest_free_Some in Ew as [Fw Pw].
  repeat split; auto using fail_nonneg.
Qed.

(** The next pipe is built, with what is known of its read end. *)
Ltac ctor_least :=
  match goal with
  | |- context [pipe_ctor ?W] =>
    let r := fresh "r" in
    let wr := fresh "wr" in
    let E := fresh "E" in
    let L := fresh "L" in
    destruct (pipe_ctor_least W) as [E | (r & wr & L & ? & ? & ? & ? & E)];
    rewrite E; clear E;
    cbn [fdt npipes] in *
  end.

(** A descriptor just closed is unused. *)
Lemma is_free_delete_eq (t : gmap Z file) (k : Z) :
  is_free (delete k t) k = true.
Proof. unfold is_free. now rewrite lookup_delete_eq. Qed.

(** Symbolic execution of a child that meets a failure. *)
Ltac walk :=
  repeat progress (go_child; rewrite ?fail_minus_one, ?is_free_delete_eq).

(** The child has left without calling [execvp]. *)
Ltac shut :=
  calls; repeat split;
  let Hin := fresh "Hin" in intros ? ? Hin; pick Hin.

(** X14: the child relies on the three standard descriptors being open when [run]
    is called.  When one of them is not, the first pipe takes its number,
    and the child, which closes each standard descriptor before it puts a
    pipe end there, meets a [close] or a [dup2] that fails: it exits with
    [EXIT_FAILURE], silently, and never calls [execvp]. *)
Theorem run_child_needs_std (fd : list Z) (argv : list string) (w : world)
    (pair : list pipe) (w1 : world) :
  pair_ctor w = (Returned pair, w1) -> existsb pipe_fail pair = false ->
  fork_reply w = 0 -> ~ std_open w ->
  let r := run fd argv w in
  let w' := snd r in
  fst r = Exited EXIT_FAILURE /\
  (forall path args, SysExecvp path args ∉ since (trace w) (trace w')) /\
  errlog w' = errlog w.
Proof.
  destruct w as [t nf np fr pr tg replies n tr lg]. cbv zeta. revert pair w1.
  hold_run. go; repeat (ctor_least; go).
  all: intros E pair w1 [= <- <-]; revert E; go;
    intros E Hp; try discriminate Hp; clear Hp; revert E.
  intros E -> Hstd. revert E. unfold std_open in Hstd. cbn [fdt] in Hstd. go.
  repeat match goal with
         | H : _ !! _ = None |- _ => apply lookup_insert_None in H as [H ?]
         end.
  clear L0 L1. destruct L as [Pr Lr].
  destruct (is_free t 0) eqn:S0.
  { assert (r = 0) as ->.
    { destruct (decide (r = 0)) as [| Hn]; [assumption |].
      assert (Hlt : 0 <= 0 < r) by (clear - Pr Hn; lia).
      rewrite (Lr 0 Hlt) in S0. discriminate S0. }
    walk. intros <-. walk. shut. }
  assert (Hn0 : r <> 0).
  { intros ->. unfold is_free in S0.
    match goal with H : t !! 0 = None |- _ => rewrite H in S0 end.
    discriminate S0. }
  repeat match goal with
         | H : t !! ?k = None |- _ =>
           pose proof (open_not_free _ _ _ S0 H); revert H
         end.
  intros. match goal with H : _ = res |- _ => revert H end.
  destruct (is_free t 1) eqn:S1.
  { assert (r = 1) as ->.
    { destruct (decide (r = 1)) as [| Hn]; [assumption |].
      assert (Hlt : 0 <= 1 < r) by (clear - Pr Hn0 Hn; lia).
      rewrite (Lr 1 Hlt) in S1. discriminate S1. }
    walk. intros <-. walk. shut. }
  assert (Hn1 : r <> 1).
  { intros ->. unfold is_free in S1.
    match goal with H : t !! 1 = None |- _ => rewrite H in S1 end.
    discriminate S1. }
  repeat match goal with
         | H : t !! ?k = None |- _ =>
           pose proof (open_not_free _ _ _ S1 H); revert H
         end.
  intros. match goal with H : _ = res |- _ => revert H end.
  destruct (is_free t 2) eqn:S2; [| now destruct Hstd].
  assert (r = 2) as ->.
  { destruct (decide (r = 2)) as [| Hn]; [assumption |].
    assert (Hlt : 0 <= 2 < r) by (clear - Pr Hn0 Hn1 Hn; lia).
    rewrite (Lr 2 Hlt) in S2. discriminate S2. }
  walk. intros <-. walk. shut.
Qed.

Lemma run_child_needs_std_witness :
  fst (run [-1; -1; -1] ["echo"%string]
         (World (list_to_map [(0, Inherited 0); (2, Inherited 2)]) 16 0 0
                ["echo"%string] [] (fun _ => Failed Linux.ECHILD) 0 [] [])) =
  Exited EXIT_FAILURE.
Proof.
  assert (E : pair_ctor (World (list_to_map [(0, Inherited 0); (2, Inherited 2)]) 16 0 0
                           ["echo"%string] [] (fun _ => Failed Linux.ECHILD) 0 [] []) =
              (Returned [(1, 3); (4, 5); (6, 7)],
               snd (pair_ctor
                      (World (list_to_map [(0, Inherited 0); (2, Inherited 2)]) 16 0 0
                         ["echo"%string] [] (fun _ => Failed Linux.ECHILD) 0 [] []))))
    by (vm_compute; reflexivity).
  assert (S : ~ std_open (World (list_to_map [(0, Inherited 0); (2, Inherited 2)]) 16 0 0
                            ["echo"%string] [] (fun _ => Failed Linux.ECHILD) 0 [] [])).
  { intros (_ & H & _). vm_compute in H. discriminate H. }
  destruct (run_child_needs_std [-1; -1; -1] ["echo"%string] _ _ _ E
              ltac:(vm_compute; reflexivity) ltac:(vm_compute; reflexivity) S)
    as [H _].
  exact H.
Defined.

End PosixLaunch.

(** ** The loop of [sys::wait] *)

Module PosixWaiter.
Import Posix PosixWait PosixReplies.

#[local] Arguments Z.eqb : simpl never.

(** While no reply names the child, a turn of the loop leads to the next. *)
Lemma wait_loop_spins (fuel : nat) :
  forall (w : world) (parent status : Z),
  (forall i : nat, reply_pid (wait_replies w (nwaits w + i)%nat) <> parent) ->
  exists w',
    wait_loop fuel parent status w = (Pending, w') /\
    trace w' = trace w ++ repeat (SysWaitpid parent 0) fuel /\
    nwaits w' = (nwaits w + fuel)%nat /\
    fdt w' = fdt w.
Proof.
  induction fuel as [| fuel IH]; intros w parent status Hnever.
  - exists w. cbn [wait_loop repeat]. unfold pending.
    rewrite app_nil_r, Nat.add_0_r. repeat split.
  - rewrite wait_loop_unfold. cbv zeta.
    assert (Hne : reply_pid (wait_replies w (nwaits w)) <> parent).
    { specialize (Hnever 0%nat). now rewrite Nat.add_0_r in Hnever. }
    apply Z.eqb_neq in Hne. rewrite Hne. cbn [negb].
    match goal with |- context [wait_loop fuel parent ?s ?w2] =>
      destruct (IH w2 parent s) as (w' & Hrun & Htr & Hn & Hfd)
    end.
    + intros i. specialize (Hnever (S i)).
      destruct (fail _), w; cbn in *;
        (intros Heq; apply Hnever; rewrite <- Heq; do 2 f_equal; lia).
    + exists w'. split; [exact Hrun |]. rewrite Htr, Hn, Hfd.
      destruct (fail _), w; cbn; rewrite <- app_assoc; repeat split; lia.
Qed.

(** X15: as long as the kernel does not name the child, [wait] does not come
    back: whatever the number of turns it is given, the loop is still
    running, and it has called [waitpid] at every turn. *)
Theorem wait_never_gives_up (m : wait_macros) (w : world) (pid : Z) :
  (forall i : nat, reply_pid (wait_replies w (nwaits w + i)%nat) <> pid) ->
  forall fuel : nat,
    fst (wait m fuel pid w) = Pending /\
    since (trace w) (trace (snd (wait m fuel pid w)))
    = repeat (SysWaitpid pid 0) fuel.
Proof.
  intros Hnever fuel. unfold wait, bind.
  destruct (wait_loop_spins fuel w pid (-1) Hnever) as (w' & -> & Htr & _).
  cbn [fst snd]. split; [reflexivity |]. rewrite Htr. apply since_app.
Qed.

Lemma wait_never_gives_up_witness :
  fst (wait Linux.macros 5 7 (childless Linux.ECHILD)) = Pending.
Proof.
  refine (proj1 (wait_never_gives_up Linux.macros (childless Linux.ECHILD) 7 _ 5%nat)).
  intros i. discriminate.
Defined.

(** X16: asked to wait for the identifier -1, [wait] takes the first failure of
    [waitpid] for the end of the loop: -1 is what it asked for.  It reports
    the failure and returns the status word it started with. *)
Theorem wait_invalid_ends_on_failure (m : wait_macros) (fuel : nat) (w : world)
    (errno : Z) :
  wait_replies w (nwaits w) = Failed errno ->
  let r := wait m (S fuel) invalid w in
  fst r = Returned (decode m (-1)) /\
  decode Linux.macros (-1) = -1 /\
  since (trace w) (trace (snd r)) = [SysWaitpid invalid 0] /\
  since (errlog w) (errlog (snd r)) = [Diag Err [AStr "waitpid"; AInt invalid]].
Proof.
  intros Hr. cbv zeta. unfold wait, bind. rewrite wait_loop_unfold. cbv zeta.
  rewrite Hr. cbn [reply_pid]. change (fail (-1)) with true.
  change (-1 =? invalid) with true. cbn [negb fst snd].
  destruct w; cbn -[since decode]. rewrite !since_app. repeat split.
Qed.

Lemma wait_invalid_ends_on_failure_witness :
  fst (wait Linux.macros 1 invalid (childless Linux.ECHILD)) = Returned (-1).
Proof.
  exact (proj1 (wait_invalid_ends_on_failure Linux.macros 0
                  (childless Linux.ECHILD) Linux.ECHILD eq_refl)).
Defined.

(** The diagnostics of the loop, turn by turn. *)
Lemma wait_loop_logs (k : nat) :
  forall (fuel : nat) (w : world) (parent status st : Z),
  reaps w parent k st -> (k < fuel)%nat ->
  errlog (snd (wait_loop fuel parent status w)) =
  errlog w ++ repeat (Diag Err [AStr "waitpid"; AInt parent])
                     (failures (wait_replies w) (nwaits w) (S k)).
Proof.
  induction k as [| k IH]; intros fuel w parent status st [Hbefore Hat] Hfuel.
  - destruct fuel as [| fuel]; [lia |].
    rewrite wait_loop_unfold. rewrite Nat.add_0_r in Hat. cbn [failures].
    rewrite Hat. cbn [reply_pid]. cbv zeta.
    rewrite Z.eqb_refl. cbn [negb snd]. rewrite Nat.add_0_r.
    destruct (fail parent), w; cbn; [reflexivity | now rewrite app_nil_r].
  - destruct fuel as [| fuel]; [lia |].
    rewrite wait_loop_unfold. cbv zeta.
    assert (Hne : reply_pid (wait_replies w (nwaits w)) <> parent).
    { specialize (Hbefore 0%nat ltac:(lia)). now rewrite Nat.add_0_r in Hbefore. }
    apply Z.eqb_neq in Hne. rewrite Hne. cbn [negb].
    match goal with |- context [wait_loop fuel parent ?s ?w2] =>
      rewrite (IH fuel w2 parent s st)
    end.
    + change (failures (wait_replies w) (nwaits w) (S (S k)))
        with ((if fail (reply_pid (wait_replies w (nwaits w))) then 1 else 0) +
              failures (wait_replies w) (S (nwaits w)) (S k))%nat.
      destruct (fail _), w; cbn [errlog with_errlog with_nwaits with_trace
                                 wait_replies nwaits Nat.add repeat].
      * now rewrite <- app_assoc.
      * reflexivity.
    + split.
      * intros i Hi. specialize (Hbefore (S i) ltac:(lia)).
        destruct (fail _), w; cbn in *;
          (intros Heq; apply Hbefore; rewrite <- Heq; do 2 f_equal; lia).
      * destruct (fail _), w; cbn in *;
          (rewrite <- Hat; f_equal; lia).
    + lia.
Qed.

(** X17: [wait] writes one diagnostic for every [waitpid] that returned the
    failure value, and none for the other calls. *)
Theorem wait_logs_each_failure (m : wait_macros) (fuel k : nat) (w : world)
    (pid st : Z) :
  reaps w pid k st -> (k < fuel)%nat ->
  since (errlog w) (errlog (snd (wait m fuel pid w))) =
  repeat (Diag Err [AStr "waitpid"; AInt pid])
         (failures (wait_replies w) (nwaits w) (S k)).
Proof.
  intros Hr Hf. pose proof (wait_loop_logs k fuel w pid (-1) st Hr Hf) as Hlog.
  unfold wait, bind, ret.
  destruct (wait_loop_reaps k fuel w pid (-1) st Hr Hf) as (w' & Hrun & _).
  rewrite Hrun in Hlog |- *. cbn [snd] in Hlog |- *. rewrite Hlog.
  apply since_app.
Qed.

Lemma wait_logs_each_failure_witness :
  since (errlog (failing_once Linux.EINTR 7 0))
        (errlog (snd (wait Linux.macros 2 7 (failing_once Linux.EINTR 7 0)))) =
  [Diag Err [AStr "waitpid"; AInt 7]].
Proof.
  refine (wait_logs_each_failure Linux.macros 2 1
            (failing_once Linux.EINTR 7 0) 7 0 _ _).
  - split; [| reflexivity].
    intros i Hi. assert (i = 0%nat) as -> by lia. discriminate.
  - lia.
Defined.

End PosixWaiter.

(** ** Finding the window of a process *)

Module MsgFacts.
Import Msg.

(** Behind a window whose handle occurs once comes the rest of the list. *)
Lemma next_after_skip (pre : list window) (w : window) (rest : list window) :
  hwnd w ∉ map hwnd pre ->
  next_after (pre ++ w :: rest) (hwnd w) = front rest.
Proof.
  induction pre as [| p pre IH]; intros Hnot; cbn [app next_after].
  - now rewrite Z.eqb_refl.
  - cbn [map] in Hnot. apply not_elem_of_cons in Hnot as [Hne Hnot].
    destruct (hwnd p =? hwnd w) eqn:E; [apply Z.eqb_eq in E; congruence |].
    now apply IH.
Qed.

(** A handle that occurs once names its window. *)
Lemma find_skip (pre : list window) (w : window) (rest : list window) :
  hwnd w ∉ map hwnd pre ->
  find (fun x => hwnd x =? hwnd w) (pre ++ w :: rest) = Some w.
Proof.
  induction pre as [| p pre IH]; intros Hnot; cbn [app find].
  - now rewrite Z.eqb_refl.
  - cbn [map] in Hnot. apply not_elem_of_cons in Hnot as [Hne Hnot].
    destruct (hwnd p =? hwnd w) eqn:E; [apply Z.eqb_eq in E; congruence |].
    now apply IH.
Qed.

(** One turn of the loop moves to the next window of the list. *)
Lemma get_loop_walks (rest : list window) :
  forall (pre : list window) (fuel : nat) (pid h t : Z),
  well_formed (pre ++ rest) ->
  FindWindowEx_ (pre ++ rest) h = front rest ->
  (length rest < fuel)%nat ->
  get_loop fuel (pre ++ rest) pid h t = Returned (first_owned rest pid t).
Proof.
  induction rest as [| w rest IH]; intros pre fuel pid h t Hwf Hnext Hfuel.
  - destruct fuel as [| fuel]; [cbn in Hfuel; lia |].
    cbn [get_loop]. rewrite Hnext. reflexivity.
  - destruct fuel as [| fuel]; [cbn in Hfuel; lia |].
    cbn [get_loop]. rewrite Hnext. cbn [front first_owned].
    destruct Hwf as [Hnd Hnz].
    assert (Hw : hwnd w <> 0).
    { rewrite Forall_app in Hnz. destruct Hnz as [_ Hnz].
      now apply Forall_cons in Hnz as [Hnz _]. }
    assert (Hnot : hwnd w ∉ map hwnd pre).
    { rewrite map_app in Hnd. apply NoDup_app in Hnd as (_ & Hd & _).
      intros Hin. apply (Hd _ Hin). cbn [map]. apply list_elem_of_here. }
    apply Z.eqb_neq in Hw. rewrite Hw.
    unfold GetWindowThreadProcessId_. rewrite (find_skip _ _ _ Hnot).
    destruct (pid =? owner w); [reflexivity |].
    replace (pre ++ w :: rest) with ((pre ++ [w]) ++ rest)
      by (now rewrite <- app_assoc).
    apply IH.
    + now rewrite <- app_assoc.
    + unfold FindWindowEx_. rewrite Hw. rewrite <- app_assoc. cbn [app].
      now apply next_after_skip.
    + cbn [length] in Hfuel. lia.
Qed.

(** The last element of a list that is not empty. *)
Lemma last_behind {A} (l : list A) (a d : A) :
  List.last (a :: l) d = List.last l a.
Proof.
  revert a d. induction l as [| b l IH]; intros a d; [reflexivity |].
  change (List.last (a :: b :: l) d) with (List.last (b :: l) d).
  now rewrite !IH.
Qed.

(** [get] computes what a walk over the list finds. *)
Lemma get_walks (ws : list window) (fuel : nat) (pid tid : Z) :
  well_formed ws -> (length ws < fuel)%nat ->
  get fuel ws pid tid = Returned (first_owned ws pid tid).
Proof.
  intros Hwf Hfuel. unfold get.
  apply (get_loop_walks ws [] fuel pid 0 tid Hwf); [reflexivity | exact Hfuel].
Qed.

(** X18: [get] walks the top-level windows from front to back and stops at the
    first one that belongs to [pid]: it returns that window, with the thread
    that made it in [tid]. *)
Theorem get_finds_first_window (ws : list window) (fuel : nat) (pid tid : Z)
    (w : window) :
  well_formed ws -> (length ws < fuel)%nat ->
  find (fun w => pid =? owner w) ws = Some w ->
  get fuel ws pid tid = Returned (hwnd w, thread w).
Proof.
  intros Hwf Hfuel Hfind. rewrite (get_walks _ _ _ _ Hwf Hfuel).
  f_equal. clear Hwf Hfuel. revert tid.
  induction ws as [| x ws IH]; intros t; cbn [find first_owned] in *.
  - discriminate.
  - destruct (pid =? owner x); [now injection Hfind as -> | now apply IH].
Qed.

Lemma get_finds_first_window_witness :
  get 4 [Window 4 10 1; Window 8 20 2; Window 12 20 3] 20 0 = Returned (8, 2).
Proof.
  apply (get_finds_first_window _ 4 20 0 (Window 8 20 2)).
  - split.
    + apply (bool_decide_unpack (NoDup _)). vm_compute. exact I.
    + repeat constructor; discriminate.
  - cbn [length]. lia.
  - reflexivity.
Defined.

(** X19: when no window belongs to [pid], [get] returns [nullptr] after it has
    visited every window, and [tid] is left with the thread of the last
    window visited, not with the value the caller put there. *)
Theorem get_null_without_window (ws : list window) (fuel : nat) (pid tid : Z) :
  well_formed ws -> (length ws < fuel)%nat ->
  find (fun w => pid =? owner w) ws = None ->
  get fuel ws pid tid = Returned (0, List.last (map thread ws) tid).
Proof.
  intros Hwf Hfuel Hfind. rewrite (get_walks _ _ _ _ Hwf Hfuel).
  f_equal. clear Hwf Hfuel. revert tid.
  induction ws as [| x ws IH]; intros t; cbn [find first_owned map] in *.
  - reflexivity.
  - destruct (pid =? owner x); [discriminate |].
    rewrite (IH Hfind). f_equal. symmetry. apply last_behind.
Qed.

Lemma get_null_without_window_witness :
  get 4 [Window 4 10 1; Window 8 20 2; Window 12 20 3] 30 77 = Returned (0, 3).
Proof.
  apply (get_null_without_window
           [Window 4 10 1; Window 8 20 2; Window 12 20 3] 4 30 77).
  - split.
    + apply (bool_decide_unpack (NoDup _)). vm_compute. exact I.
    + repeat constructor; discriminate.
  - cbn [length]. lia.
  - reflexivity.
Defined.

End MsgFacts.
